(** * crystal_index: plane indexing and pair matching

    A shallow embedding of [src/crystal_index/crystal.py].

    Modelling conventions.
    - Python [int] Miller indices are [Z].
    - A call that can raise returns a [pyresult]; a function that falls
      off its end returns Python's [None], modelled by [option].
    - [print] appends to an explicit output log.
    - Numbers are modelled twice. The first model is the exact one: a numpy
      [float64] is an extended real ([np_float]) that keeps the outcome of a
      division by zero (an infinity or a NaN together with a warning, never
      an exception) but does not round, and integer arrays do not overflow.
      It carries the facts that do not depend on rounding. The second model,
      [Np64], has numpy's number formats: the element type numpy finds for
      an array of Python integers, with the [TypeError] of an array of
      objects, int64 arithmetic that wraps around, and binary64 arithmetic
      that rounds. It carries the facts about errors and about the two
      comparisons of [find_pairs]. *)

From Stdlib Require Import String ZArith List Bool Lia Sorted Permutation.
From Stdlib Require Import Reals Lra.
From Stdlib Require Floats.
Import ListNotations.

Local Open Scope Z_scope.

(** ** itertools *)

Module Itertools.

(** [range(n)] for an integer [n]: [0, 1, ..., n-1], empty when [n <= 0]. *)
Definition range (n : Z) : list Z :=
  map Z.of_nat (seq 0 (Z.to_nat n)).

(** The pairs of positions [j <= k] of the pool, in lexicographic order. *)
Fixpoint cwr2 {A} (pool : list A) : list (A * A) :=
  match pool with
  | [] => []
  | x :: rest => map (fun y => (x, y)) pool ++ cwr2 rest
  end.

(** [combinations_with_replacement(pool, 3)]: positions [i <= j <= k] of the
    pool, emitted in lexicographic order of the positions. *)
Fixpoint combinations_with_replacement3 {A} (pool : list A)
  : list (A * A * A) :=
  match pool with
  | [] => []
  | x :: rest =>
      map (fun yz => (x, fst yz, snd yz)) (cwr2 pool)
        ++ combinations_with_replacement3 rest
  end.

(** [combinations(pool, 2)]: positions [i < j], lexicographic. *)
Fixpoint combinations2 {A} (pool : list A) : list (A * A) :=
  match pool with
  | [] => []
  | x :: rest => map (fun y => (x, y)) rest ++ combinations2 rest
  end.

(** [permutations([a, b, c])], in the order itertools emits them. *)
Definition permutations3 {A} (t : A * A * A) : list (A * A * A) :=
  let '(a, b, c) := t in
  [(a, b, c); (a, c, b); (b, a, c); (b, c, a); (c, a, b); (c, b, a)].

(** [product(pool, repeat=3)]: the rightmost position varies fastest. *)
Definition product3 {A} (pool : list A) : list (A * A * A) :=
  flat_map (fun a =>
    flat_map (fun b =>
      map (fun c => (a, b, c)) pool) pool) pool.

End Itertools.

(** ** builtins *)

Section Builtins.
Context {A : Type} (key : A -> Z).

(** Insertion in front of a list sorted by [key]: the new element comes
    before every element with an equal key, so that a right fold keeps
    equal keys in their input order. *)
Fixpoint insert_by (x : A) (l : list A) : list A :=
  match l with
  | [] => [x]
  | y :: ys =>
      if key x <=? key y then x :: l else y :: insert_by x ys
  end.

(** [sorted(l, key=key)]: Python's sort is stable. *)
Definition sorted (l : list A) : list A :=
  fold_right insert_by [] l.

(** Ascending key; equal keys in the order [gen] in which the input was
    generated. *)
Definition key_then_gen (gen : A -> A -> Prop) (x y : A) : Prop :=
  key x < key y \/ (key x = key y /\ gen x y).
End Builtins.

(** ** Index generator *)

Definition hkl : Type := (Z * Z * Z)%type.

(** [sum(square(t))] *)
Definition sort_by_square_sum (t : hkl) : Z :=
  let '(h, k, l) := t in h * h + k * k + l * l.

(** [xs[1:]] *)
Definition drop_first {A} (xs : list A) : list A := tl xs.

Definition get_possible_index_combinations (largest_miller_index : Z)
  : list hkl :=
  drop_first
    (sorted sort_by_square_sum
       (Itertools.combinations_with_replacement3
          (Itertools.range (largest_miller_index + 1)))).

(** Generation order of the combinations: lexicographic on the triple. *)
Definition lex_lt (t u : hkl) : Prop :=
  let '(a, b, c) := t in
  let '(a', b', c') := u in
  a < a' \/ (a = a' /\ (b < b' \/ (b = b' /\ c < c'))).

(** Ascending square sum, ties in generation order. *)
Definition index_order : hkl -> hkl -> Prop :=
  key_then_gen sort_by_square_sum lex_lt.

(** ** Python results *)

Inductive exn : Type := ValueError | TypeError.

Inductive pyresult (A : Type) : Type :=
| Ok (a : A)
| Raise (e : exn).
Arguments Ok {A} a.
Arguments Raise {A} e.

Definition bind {A B} (m : pyresult A) (f : A -> pyresult B) : pyresult B :=
  match m with
  | Ok a => f a
  | Raise e => Raise e
  end.

Notation "x <- m ;; k" := (bind m (fun x => k))
  (at level 61, m at next level, right associativity).

Definition raises {A} (m : pyresult A) : Prop := exists e, m = Raise e.

Fixpoint mapM {A B} (f : A -> pyresult B) (xs : list A)
  : pyresult (list B) :=
  match xs with
  | [] => Ok []
  | x :: rest => y <- f x ;; ys <- mapM f rest ;; Ok (y :: ys)
  end.

(** ** numpy scalars *)

Module Np.

Inductive np_float : Type :=
| Finite (x : R)
| PosInf
| NegInf
| NaN.

Definition Rltb (x y : R) : bool := if Rlt_dec x y then true else false.
Definition Reqb (x y : R) : bool := if Req_dec_T x y then true else false.

Definition neg (a : np_float) : np_float :=
  match a with
  | Finite x => Finite (- x)
  | PosInf => NegInf
  | NegInf => PosInf
  | NaN => NaN
  end.

(** An infinity carrying the sign of [x], for [x <> 0]. *)
Definition signed_inf (x : R) : np_float :=
  if Rltb 0 x then PosInf else NegInf.

(** [a / b]: dividing by zero gives an infinity or a NaN (numpy warns, it
    does not raise). The sign of a zero is not modelled: a zero divisor
    counts as [+0.0]. *)
Definition truediv (a b : np_float) : np_float :=
  match a, b with
  | NaN, _ | _, NaN => NaN
  | Finite x, Finite y =>
      if Reqb y 0 then (if Reqb x 0 then NaN else signed_inf x)
      else Finite (x / y)
  | Finite _, _ => Finite 0
  | PosInf, Finite y => if Rltb y 0 then NegInf else PosInf
  | NegInf, Finite y => if Rltb y 0 then PosInf else NegInf
  | _, _ => NaN
  end.

Definition mul (a b : np_float) : np_float :=
  match a, b with
  | NaN, _ | _, NaN => NaN
  | Finite x, Finite y => Finite (x * y)
  | Finite x, i | i, Finite x =>
      if Reqb x 0 then NaN else if Rltb 0 x then i else neg i
  | PosInf, PosInf | NegInf, NegInf => PosInf
  | _, _ => NegInf
  end.

Definition add (a b : np_float) : np_float :=
  match a, b with
  | NaN, _ | _, NaN => NaN
  | Finite x, Finite y => Finite (x + y)
  | PosInf, NegInf | NegInf, PosInf => NaN
  | Finite _, i | i, _ => i
  end.

(** [a < b]: false as soon as one side is a NaN. *)
Definition lt (a b : np_float) : bool :=
  match a, b with
  | NaN, _ | _, NaN => false
  | Finite x, Finite y => Rltb x y
  | NegInf, NegInf | PosInf, _ | _, NegInf => false
  | _, _ => true
  end.

(** [sqrt] of a non-negative float. *)
Definition sqrt (x : R) : np_float := Finite (R_sqrt.sqrt x).

(** [clip(a, lo, hi)] is [minimum(maximum(a, lo), hi)]. *)
Definition clip (a : np_float) (lo hi : R) : np_float :=
  match a with
  | Finite x => Finite (Rmin (Rmax x lo) hi)
  | PosInf => Finite hi
  | NegInf => Finite (Rmin lo hi)
  | NaN => NaN
  end.

(** [arccos]: NaN outside [-1, 1]. *)
Definition arccos (a : np_float) : np_float :=
  match a with
  | Finite x =>
      if Rltb x (-1) || Rltb 1 x then NaN else Finite (acos x)
  | _ => NaN
  end.

Definition rad2deg (a : np_float) : np_float :=
  mul a (Finite (180 / PI)).

(** Arrays of three numbers. *)
Definition ivec : Type := (Z * Z * Z)%type.
Definition fvec : Type := (np_float * np_float * np_float)%type.

Definition of_int (n : Z) : np_float := Finite (IZR n).

Definition astype_float (v : ivec) : fvec :=
  let '(a, b, c) := v in (of_int a, of_int b, of_int c).

(** Elementwise product of two integer arrays. *)
Definition imul (v w : ivec) : ivec :=
  let '(a, b, c) := v in
  let '(a', b', c') := w in
  (a * a', b * b', c * c')%Z.

(** [v / s] for an array and a scalar. *)
Definition div_scalar (v : fvec) (s : np_float) : fvec :=
  let '(a, b, c) := v in (truediv a s, truediv b s, truediv c s).

Definition dot (v w : fvec) : np_float :=
  let '(a, b, c) := v in
  let '(a', b', c') := w in
  add (add (mul a a') (mul b b')) (mul c c').

(** [linalg.norm] of an integer array: the array is converted to floats,
    then [sqrt(dot(x, x))]; the dot product of finite numbers is the real
    sum of squares. *)
Definition linalg_norm (v : ivec) : np_float :=
  let '(a, b, c) := v in
  sqrt (IZR a * IZR a + IZR b * IZR b + IZR c * IZR c).

Definition cross (v w : ivec) : ivec :=
  let '(a1, a2, a3) := v in
  let '(b1, b2, b3) := w in
  (a2 * b3 - a3 * b2, a3 * b1 - a1 * b3, a1 * b2 - a2 * b1)%Z.

End Np.

Import Np.

(** ** CrystalSystem *)

Inductive CrystalSystem : Type := FCC | BCC | SC.

Definition CrystalSystem_value (s : CrystalSystem) : string :=
  match s with
  | FCC => "FCC"
  | BCC => "BCC"
  | SC => "SC"
  end.

(** [CrystalSystem(value)]: lookup of a member by value; [ValueError] when
    no member has it. *)
Definition CrystalSystem_call (value : string) : pyresult CrystalSystem :=
  if String.eqb value "FCC" then Ok FCC
  else if String.eqb value "BCC" then Ok BCC
  else if String.eqb value "SC" then Ok SC
  else Raise ValueError.

(** ** CrystalPlane *)

Record CrystalPlane : Type := mkCrystalPlane { h : Z; k : Z; l : Z }.

(** [array([h, k, l])], set once by [__init__]. *)
Definition planenormal (p : CrystalPlane) : ivec := (h p, k p, l p).

Definition CrystalPlane_of (t : hkl) : CrystalPlane :=
  let '(a, b, c) := t in mkCrystalPlane a b c.

Definition unit_vector (vector : ivec) : fvec :=
  div_scalar (astype_float vector) (linalg_norm vector).

(** The angle in exact arithmetic; [Np64.angle_between] is the one with
    rounding. *)
Definition angle_between (p1 p2 : CrystalPlane) : np_float :=
  let p1_u := unit_vector (planenormal p1) in
  let p2_u := unit_vector (planenormal p2) in
  rad2deg (arccos (clip (dot p1_u p2_u) (-1) 1)).

(** The cross product of the integers; [Np64.get_zone_axis] is the one of
    int64 arrays, which wraps around. *)
Definition get_zone_axis (p1 p2 : CrystalPlane) : ivec :=
  cross (planenormal p1) (planenormal p2).

(** No statement of the method raises: the division is numpy's. This is
    the method in exact arithmetic, on a normal that numpy holds as
    numbers; [Np64.get_d_spacing] has the element types, with the
    [TypeError] of an array of objects, and the rounding. *)
Definition get_d_spacing (self : CrystalPlane) : pyresult np_float :=
  Ok (truediv (Finite 1) (linalg_norm (planenormal self))).

(** The (6, 1, 3) array of permutations is broadcast against the (8, 3)
    array of signs and reshaped to 48 rows: the sign pattern varies
    fastest. *)
Definition get_equivalent_planes (self : CrystalPlane)
  : list CrystalPlane :=
  let possible_miller_indices :=
    Itertools.permutations3 (h self, k self, l self) in
  let sign_variants := Itertools.product3 [1; -1] in
  let possible_planes :=
    flat_map (fun m => map (imul m) sign_variants)
      possible_miller_indices in
  map CrystalPlane_of possible_planes.

(** ** Crystal *)

Definition HKL_LIST : list hkl := get_possible_index_combinations 5.

(** [planes] holds what [get_planes] returned, [None] included. *)
Record Crystal : Type := mkCrystal {
  crystal_system : CrystalSystem;
  order : Z;
  planes : option (list CrystalPlane)
}.

Definition is_even (num : Z) : bool := num mod 2 =? 0.

Definition len {A} (xs : list A) : Z := Z.of_nat (length xs).

(** [all(xs)] *)
Definition all (xs : list bool) : bool := forallb (fun b => b) xs.

(** How a [for] loop of [get_planes] ends: by [return hkl_list], or by
    running out of candidates with [hkl_list] as it then stands. *)
Inductive loop_exit : Type :=
| Return (hkl_list : list CrystalPlane)
| Exhausted (hkl_list : list CrystalPlane).

Definition collected (e : loop_exit) : list CrystalPlane :=
  match e with
  | Return hkl_list | Exhausted hkl_list => hkl_list
  end.

(** [case CrystalSystem.SC]: the length is tested before the append. *)
Fixpoint loop_SC (order : Z) (candidates : list hkl)
  (hkl_list : list CrystalPlane) : loop_exit :=
  match candidates with
  | [] => Exhausted hkl_list
  | c :: rest =>
      if len hkl_list =? order then Return hkl_list
      else loop_SC order rest (hkl_list ++ [CrystalPlane_of c])
  end.

(** [case CrystalSystem.BCC] and [case CrystalSystem.FCC]: the same loop
    around two conditions; the length is tested after the append. *)
Fixpoint loop_if (condition : hkl -> bool) (order : Z)
  (candidates : list hkl) (hkl_list : list CrystalPlane) : loop_exit :=
  match candidates with
  | [] => Exhausted hkl_list
  | c :: rest =>
      let hkl_list :=
        if condition c then hkl_list ++ [CrystalPlane_of c]
        else hkl_list in
      if len hkl_list =? order then Return hkl_list
      else loop_if condition order rest hkl_list
  end.

Definition condition_BCC (c : hkl) : bool :=
  let '(h, k, l) := c in is_even (h + k + l).

Definition condition_FCC (c : hkl) : bool :=
  let '(h, k, l) := c in
  all [is_even h; is_even k; is_even l]
  || all [negb (is_even h); negb (is_even k); negb (is_even l)].

Definition get_planes_loop (crystal_system : CrystalSystem) (order : Z)
  : loop_exit :=
  match crystal_system with
  | SC => loop_SC order HKL_LIST []
  | BCC => loop_if condition_BCC order HKL_LIST []
  | FCC => loop_if condition_FCC order HKL_LIST []
  end.

(** Falling out of the [match] returns [None]. *)
Definition get_planes (crystal_system : CrystalSystem) (order : Z)
  : option (list CrystalPlane) :=
  match get_planes_loop crystal_system order with
  | Return hkl_list => Some hkl_list
  | Exhausted _ => None
  end.

(** [Crystal(crystal_system, order)]: a member of the enumeration is taken
    as it is, anything else is looked up by value. *)
Definition Crystal_init (crystal_system : CrystalSystem + string)
  (order : Z) : pyresult Crystal :=
  sys <- match crystal_system with
         | inl member => Ok member
         | inr value => CrystalSystem_call value
         end ;;
  Ok (mkCrystal sys order (get_planes sys order)).

(** [combinations(self.planes, 2)] needs an iterable. *)
Definition get_d_ratio (self : Crystal)
  : pyresult (list (np_float * (CrystalPlane * CrystalPlane))) :=
  match planes self with
  | None => Raise TypeError
  | Some ps =>
      mapM (fun pair_ =>
              d0 <- get_d_spacing (fst pair_) ;;
              d1 <- get_d_spacing (snd pair_) ;;
              Ok (truediv d0 d1, pair_))
        (Itertools.combinations2 ps)
  end.

(** What [find_pairs] prints for one match: the two planes and their zone
    axis. *)
Record MatchResult : Type := mkMatchResult {
  vector_1 : CrystalPlane;
  vector_2 : CrystalPlane;
  zone_axis : ivec
}.

(** The inner [for] of [find_pairs], with its [break]; [out] is what has
    been printed so far. *)
Fixpoint scan_equivalents (vector_1 : CrystalPlane) (angle : R)
  (vector_2_lst : list CrystalPlane) (out : list MatchResult)
  : list MatchResult :=
  match vector_2_lst with
  | [] => out
  | vector_2 :: rest =>
      if lt (angle_between vector_1 vector_2) (Finite angle)
      then out ++ [mkMatchResult vector_1 vector_2
                     (get_zone_axis vector_1 vector_2)]
      else scan_equivalents vector_1 angle rest out
  end.

(** The outer [for] of [find_pairs]. *)
Fixpoint scan_pairs (angle : R)
  (possible_pairs : list (CrystalPlane * CrystalPlane))
  (out : list MatchResult) : list MatchResult :=
  match possible_pairs with
  | [] => out
  | pair_ :: rest =>
      let vector_1 := fst pair_ in
      let vector_2_lst := get_equivalent_planes (snd pair_) in
      scan_pairs angle rest
        (scan_equivalents vector_1 angle vector_2_lst out)
  end.

(** [lower_limit < ratio < higher_limit] on exact values;
    [Np64.in_limits] compares the rounded ones. *)
Definition in_limits (lower_limit higher_limit : R) (ratio : np_float)
  : bool :=
  lt (Finite lower_limit) ratio && lt ratio (Finite higher_limit).

Definition possible_pairs_of (space_ratio : R)
  (d_ratio : list (np_float * (CrystalPlane * CrystalPlane)))
  : list (CrystalPlane * CrystalPlane) :=
  let lower_limit := (space_ratio * 0.8)%R in
  let higher_limit := (space_ratio * 1.2)%R in
  map snd
    (filter (fun i => in_limits lower_limit higher_limit (fst i)) d_ratio).

(** [find_pairs(space_ratio, angle)] for finite arguments; the result is
    the sequence of matches printed. *)
Definition find_pairs (self : Crystal) (space_ratio angle : R)
  : pyresult (list MatchResult) :=
  d_ratio <- get_d_ratio self ;;
  Ok (scan_pairs angle (possible_pairs_of space_ratio d_ratio) []).

(** ** The selection rules, in the words of the specification *)

(** SimpleCubic takes every candidate, BodyCentered those with an even
    [h + k + l], FaceCentered those whose three indices are all even or
    all odd. *)
Definition selection_rule (sys : CrystalSystem) (c : hkl) : bool :=
  let '(h, k, l) := c in
  match sys with
  | SC => true
  | BCC => Z.even (h + k + l)
  | FCC =>
      (Z.even h && Z.even k && Z.even l) || (Z.odd h && Z.odd k && Z.odd l)
  end.

(** [h*h + k*k + l*l] of a plane. *)
Definition square_sum (p : CrystalPlane) : Z :=
  h p * h p + k p * k p + l p * l p.

(** Lexicographic order on pairs. *)
Definition lex_lt2 (t u : Z * Z) : Prop :=
  fst t < fst u \/ (fst t = fst u /\ snd t < snd u).

(** ** The quantities of the pair matcher, as real numbers *)

(** [1 / sqrt(h*h + k*k + l*l)] *)
Definition d_spacing (p : CrystalPlane) : R :=
  (1 / R_sqrt.sqrt (IZR (square_sum p)))%R.

(** The dot product of the two unit normals. *)
Definition cos_between (p q : CrystalPlane) : R :=
  let n1 := R_sqrt.sqrt (IZR (square_sum p)) in
  let n2 := R_sqrt.sqrt (IZR (square_sum q)) in
  (IZR (h p) / n1 * (IZR (h q) / n2)
   + IZR (k p) / n1 * (IZR (k q) / n2)
   + IZR (l p) / n1 * (IZR (l q) / n2))%R.

(** The angle between two planes, in degrees. *)
Definition angle_degrees (p q : CrystalPlane) : R :=
  (acos (Rmin (Rmax (cos_between p q) (-1)) 1) * (180 / PI))%R.

(** The elements [y] with [f x = Some y], for [x] along the list. *)
Definition filter_map {A B} (f : A -> option B) (xs : list A) : list B :=
  flat_map (fun x => match f x with Some y => [y] | None => [] end) xs.

(** ** Quantities used to state further properties *)

(** The dot product of two integer arrays. *)
Definition idot (v w : ivec) : Z :=
  let '(a, b, c) := v in
  let '(a', b', c') := w in
  a * a' + b * b' + c * c'.

(** The absolute values of the three indices of a plane. *)
Definition abs_indices (p : CrystalPlane) : hkl :=
  (Z.abs (h p), Z.abs (k p), Z.abs (l p)).

(** [q] is one of the planes equivalent to [p]. *)
Definition equivalent (p q : CrystalPlane) : Prop :=
  In q (get_equivalent_planes p).

(** ** The earlier script, [tem_index.py] *)

Module TemIndex.

(** The class keeps its faces as plain tuples and its crystal system as the
    string it was given. *)
Definition HKL_LIST : list hkl :=
  [(1, 0, 0); (1, 1, 0); (1, 1, 1); (2, 0, 0); (2, 1, 0); (2, 1, 1);
   (2, 2, 0); (3, 0, 0); (3, 1, 0); (3, 1, 1); (2, 2, 2); (3, 2, 0);
   (3, 2, 1); (4, 0, 0); (4, 1, 0); (3, 2, 2); (3, 3, 1); (4, 2, 0)].

Record Crystal : Type := mkCrystal {
  crystal_system : string;
  order : Z;
  hkl_list : option (list hkl)
}.

Inductive loop_exit : Type :=
| Return (hkl_list : list hkl)
| Exhausted (hkl_list : list hkl).

Fixpoint loop_SC (order : Z) (candidates : list hkl) (hkl_list : list hkl)
  : loop_exit :=
  match candidates with
  | [] => Exhausted hkl_list
  | c :: rest =>
      if len hkl_list =? order then Return hkl_list
      else loop_SC order rest (hkl_list ++ [c])
  end.

Fixpoint loop_if (condition : hkl -> bool) (order : Z)
  (candidates : list hkl) (hkl_list : list hkl) : loop_exit :=
  match candidates with
  | [] => Exhausted hkl_list
  | c :: rest =>
      let hkl_list := if condition c then hkl_list ++ [c] else hkl_list in
      if len hkl_list =? order then Return hkl_list
      else loop_if condition order rest hkl_list
  end.

(** The [match] is on the string: a string that is none of the three cases
    runs no loop, and the method falls off its end. *)
Definition get_faces (crystal_system : string) (order : Z)
  : option (list hkl) :=
  let exit :=
    if String.eqb crystal_system "SC" then loop_SC order HKL_LIST []
    else if String.eqb crystal_system "BCC"
         then loop_if condition_BCC order HKL_LIST []
    else if String.eqb crystal_system "FCC"
         then loop_if condition_FCC order HKL_LIST []
    else Exhausted [] in
  match exit with
  | Return hkl_list => Some hkl_list
  | Exhausted _ => None
  end.

(** [__init__] stores its arguments and calls [get_faces]. *)
Definition Crystal_init (crystal_system : string) (order : Z) : Crystal :=
  mkCrystal crystal_system order (get_faces crystal_system order).

Definition generate_hkl_variants (h k l : Z) : list hkl :=
  let signs := Itertools.product3 [1; -1] in
  map (fun sign => let '(s0, s1, s2) := sign in (h * s0, k * s1, l * s2))
    signs.

(** Each sign variant in turn is extended by its six permutations. *)
Definition get_space_group_with_hkl (h k l : Z) : list hkl :=
  flat_map Itertools.permutations3 (generate_hkl_variants h k l).

(** [1 / sqrt(h**2 + k**2 + l**2)], with numpy's [sqrt]. *)
Definition get_d_spacing (t : hkl) : np_float :=
  let '(h, k, l) := t in
  truediv (Finite 1) (Np.sqrt (IZR (h ^ 2 + k ^ 2 + l ^ 2))).

(** [combinations(self.hkl_list, 2)] needs an iterable. *)
Definition get_d_ratio (self : Crystal)
  : pyresult (list (np_float * (hkl * hkl))) :=
  match hkl_list self with
  | None => Raise TypeError
  | Some faces =>
      Ok (map (fun pair_ =>
                 (truediv (get_d_spacing (fst pair_))
                    (get_d_spacing (snd pair_)),
                  pair_))
            (Itertools.combinations2 faces))
  end.

End TemIndex.

(** ** The methods on numpy's number formats *)

Module Np64.

Import Floats.
#[local] Set Warnings "-inexact-float".

(** *** Element types *)

Inductive dtype : Type := int64 | uint64 | float64 | object.

Definition two63 : Z := Eval vm_compute in 2 ^ 63.
Definition two64 : Z := Eval vm_compute in 2 ^ 64.

(** The element type numpy finds for one Python integer: a C long long if it
    fits, else an unsigned long long if it fits, else a Python object. *)
Definition pyint_dtype (z : Z) : dtype :=
  if (- two63 <=? z) && (z <? two63) then int64
  else if (0 <=? z) && (z <? two64) then uint64
  else object.

(** The common element type of two elements. *)
Definition promote (a b : dtype) : dtype :=
  match a, b with
  | object, _ | _, object => object
  | int64, int64 => int64
  | uint64, uint64 => uint64
  | _, _ => float64
  end.

(** The element type of [array([h, k, l])]. *)
Definition array_dtype (v : ivec) : dtype :=
  let '(a, b, c) := v in
  promote (promote (pyint_dtype a) (pyint_dtype b)) (pyint_dtype c).

(** *** int64 arithmetic *)

(** The int64 value of an integer result: two's complement wrap-around. *)
Definition wrap (z : Z) : Z := (z + two63) mod two64 - two63.

(** [cross] of two int64 arrays: each product and each difference is an
    int64 operation. *)
Definition cross (v w : ivec) : ivec :=
  let '(a1, a2, a3) := v in
  let '(b1, b2, b3) := w in
  (wrap (wrap (a2 * b3) - wrap (a3 * b2)),
   wrap (wrap (a3 * b1) - wrap (a1 * b3)),
   wrap (wrap (a1 * b2) - wrap (a2 * b1))).

(** [get_zone_axis] of two planes whose normals are int64 arrays; the other
    element types are not modelled. *)
Definition get_zone_axis (p1 p2 : CrystalPlane) : ivec :=
  cross (planenormal p1) (planenormal p2).

(** *** binary64 arithmetic *)

Definition fvec : Type := (float * float * float)%type.

(** The float nearest to an integer, as a conversion to float64 gives it. *)
Definition of_int (z : Z) : float :=
  SF2Prim (binary_normalize prec emax z 0 false).

Definition astype_float (v : ivec) : fvec :=
  let '(a, b, c) := v in (of_int a, of_int b, of_int c).

(** [x.dot(x)] of a float array. The order in which numpy adds the three
    squares is not fixed; every order gives this value as long as the
    squares and their sums are integers below 2^53. *)
Definition sum_of_squares (x : fvec) : float :=
  let '(a, b, c) := x in (a * a + b * b + c * c)%float.

(** [linalg.norm]: an array of numbers is converted to floats, then
    [sqrt(x.dot(x))]; on an array of objects the sum of squares is a Python
    integer, which numpy's [sqrt] rejects with a [TypeError]. *)
Definition linalg_norm (v : ivec) : pyresult float :=
  match array_dtype v with
  | object => Raise TypeError
  | _ => Ok (PrimFloat.sqrt (sum_of_squares (astype_float v)))
  end.

(** [1 / linalg.norm(self.planenormal)]: a float division, so that a zero
    norm gives an infinity. *)
Definition get_d_spacing (self : CrystalPlane) : pyresult float :=
  n <- linalg_norm (planenormal self) ;;
  Ok (1 / n)%float.

(** [v / s] for an array and a float. *)
Definition div_scalar (v : fvec) (s : float) : fvec :=
  let '(a, b, c) := v in ((a / s)%float, (b / s)%float, (c / s)%float).

Definition unit_vector (vector : ivec) : pyresult fvec :=
  n <- linalg_norm vector ;;
  Ok (div_scalar (astype_float vector) n).

(** The numpy functions of [angle_between] whose results are not computed
    here: [dot] of two float arrays, [clip], [arccos] and [rad2deg]. *)
Record angle_functions : Type := {
  np_dot : fvec -> fvec -> float;
  np_clip : float -> float -> float -> float;
  np_arccos : float -> float;
  np_rad2deg : float -> float
}.

Definition angle_between (np : angle_functions) (p1 p2 : CrystalPlane)
  : pyresult float :=
  p1_u <- unit_vector (planenormal p1) ;;
  p2_u <- unit_vector (planenormal p2) ;;
  Ok (np_rad2deg np
        (np_arccos np (np_clip np (np_dot np p1_u p2_u) (-1) 1))).

(** [combinations(self.planes, 2)] needs an iterable; the ratios are
    computed pair after pair. *)
Definition get_d_ratio (self : Crystal)
  : pyresult (list (float * (CrystalPlane * CrystalPlane))) :=
  match planes self with
  | None => Raise TypeError
  | Some ps =>
      mapM (fun pair_ =>
              d0 <- get_d_spacing (fst pair_) ;;
              d1 <- get_d_spacing (snd pair_) ;;
              Ok ((d0 / d1)%float, pair_))
        (Itertools.combinations2 ps)
  end.

(** [lower_limit < ratio < higher_limit] *)
Definition in_limits (lower_limit higher_limit ratio : float) : bool :=
  (lower_limit <? ratio)%float && (ratio <? higher_limit)%float.

Definition possible_pairs_of (space_ratio : float)
  (d_ratio : list (float * (CrystalPlane * CrystalPlane)))
  : list (CrystalPlane * CrystalPlane) :=
  let lower_limit := (space_ratio * 0.8)%float in
  let higher_limit := (space_ratio * 1.2)%float in
  map snd
    (filter (fun i => in_limits lower_limit higher_limit (fst i)) d_ratio).

(** A run of [find_pairs]: what it has printed, and the exception that
    ended it, if any. The orbit scanned is that of [get_equivalent_planes],
    which is what numpy's int64 products give for indices whose opposites
    are int64 values ([ordinary] below); the statements about the scans are
    about such planes. *)
Definition run : Type := (list MatchResult * option exn)%type.

(** The inner [for] of [find_pairs], with its [break]. *)
Fixpoint scan_equivalents (np : angle_functions) (vector_1 : CrystalPlane)
  (angle : float) (vector_2_lst : list CrystalPlane)
  (out : list MatchResult) : run :=
  match vector_2_lst with
  | [] => (out, None)
  | vector_2 :: rest =>
      match angle_between np vector_1 vector_2 with
      | Raise e => (out, Some e)
      | Ok a =>
          if (a <? angle)%float
          then (out ++ [mkMatchResult vector_1 vector_2
                          (get_zone_axis vector_1 vector_2)], None)
          else scan_equivalents np vector_1 angle rest out
      end
  end.

(** The outer [for] of [find_pairs]. *)
Fixpoint scan_pairs (np : angle_functions) (angle : float)
  (possible_pairs : list (CrystalPlane * CrystalPlane))
  (out : list MatchResult) : run :=
  match possible_pairs with
  | [] => (out, None)
  | pair_ :: rest =>
      let vector_1 := fst pair_ in
      let vector_2_lst := get_equivalent_planes (snd pair_) in
      match scan_equivalents np vector_1 angle vector_2_lst out with
      | (out, None) => scan_pairs np angle rest out
      | stopped => stopped
      end
  end.

Definition find_pairs (np : angle_functions) (self : Crystal)
  (space_ratio angle : float) : run :=
  match get_d_ratio self with
  | Raise e => ([], Some e)
  | Ok d_ratio =>
      scan_pairs np angle (possible_pairs_of space_ratio d_ratio) []
  end.

(** *** Quantities used in the statements *)

(** All three indices are int64 values and so are their opposites. *)
Definition ordinary (p : CrystalPlane) : Prop :=
  Z.abs (h p) < two63 /\ Z.abs (k p) < two63 /\ Z.abs (l p) < two63.

(** All three indices are below 2^31 in absolute value: no product or
    difference of [cross] leaves int64. *)
Definition small (p : CrystalPlane) : Prop :=
  Z.abs (h p) < 2 ^ 31 /\ Z.abs (k p) < 2 ^ 31 /\ Z.abs (l p) < 2 ^ 31.

(** All three indices are below 2^25 in absolute value: the squares of the
    indices and the sums of these squares are integers below 2^53, which
    binary64 holds exactly, so that [sum_of_squares] is the exact integer
    whatever the order of the additions. The indices of [get_planes] are at
    most 5. *)
Definition exact (p : CrystalPlane) : Prop :=
  Z.abs (h p) < 2 ^ 25 /\ Z.abs (k p) < 2 ^ 25 /\ Z.abs (l p) < 2 ^ 25.

(** The test of the inner loop on one equivalent plane. *)
Definition below (np : angle_functions) (vector_1 : CrystalPlane)
  (angle : float) (vector_2 : CrystalPlane) : bool :=
  match angle_between np vector_1 vector_2 with
  | Ok a => (a <? angle)%float
  | Raise _ => false
  end.

(** What the scan of one pair prints. *)
Definition match_of (np : angle_functions) (angle : float)
  (pair_ : CrystalPlane * CrystalPlane) : list MatchResult :=
  fst (scan_equivalents np (fst pair_) angle
         (get_equivalent_planes (snd pair_)) []).

(** An instance of the four numpy functions, to apply the statements at a
    concrete crystal; no statement depends on what they return. *)
Definition placeholder : angle_functions :=
  {| np_dot := fun _ _ => 0%float;
     np_clip := fun x _ _ => x;
     np_arccos := fun x => x;
     np_rad2deg := fun x => x |}.

End Np64.

(** * Proofs *)

(** ** Facts about the sort *)

Section SortedFacts.
Context {A : Type} (key : A -> Z).

Lemma insert_by_perm (x : A) (l : list A) :
  Permutation (insert_by key x l) (x :: l).
Proof.
  induction l as [|y ys IH]; simpl; [reflexivity|].
  destruct (key x <=? key y); [reflexivity|].
  rewrite IH. apply perm_swap.
Qed.

Lemma sorted_perm (l : list A) : Permutation (sorted key l) l.
Proof.
  induction l as [|x l IH]; simpl; [constructor|].
  rewrite insert_by_perm. now constructor.
Qed.

Lemma sorted_In (l : list A) (x : A) : In x (sorted key l) <-> In x l.
Proof.
  split; apply Permutation_in;
    [apply sorted_perm | apply Permutation_sym, sorted_perm].
Qed.

(** [gen] is the order in which the input was generated. *)
Variable gen : A -> A -> Prop.

Lemma insert_by_stable (x : A) (l : list A) :
  Forall (gen x) l ->
  StronglySorted (key_then_gen key gen) l ->
  StronglySorted (key_then_gen key gen) (insert_by key x l).
Proof.
  induction l as [|y ys IH]; intros Hgen Hs; simpl.
  - repeat constructor.
  - inversion Hs as [|? ? Hs' Hy]; subst.
    inversion Hgen as [|? ? Hxy Hgen']; subst.
    destruct (Z.leb_spec (key x) (key y)) as [Hle|Hlt].
    + constructor; [assumption|].
      constructor.
      * unfold key_then_gen. destruct (Z.eq_dec (key x) (key y)); [right|left]; auto; lia.
      * rewrite Forall_forall in *. intros z Hz.
        specialize (Hy z Hz). specialize (Hgen' z Hz).
        unfold key_then_gen in *.
        destruct (Z.eq_dec (key x) (key z)); [right; auto|left].
        destruct Hy as [?|[? _]]; lia.
    + constructor; [auto|].
      eapply Permutation_Forall; [apply Permutation_sym, insert_by_perm|].
      constructor; [left; lia | assumption].
Qed.

(** Stability: an input listed in generation order comes out ordered by
    key, with equal keys still in generation order. *)
Lemma sorted_stable (l : list A) :
  StronglySorted gen l -> StronglySorted (key_then_gen key gen) (sorted key l).
Proof.
  induction l as [|x l IH]; intros Hs; simpl; [constructor|].
  inversion Hs; subst.
  apply insert_by_stable; [|auto].
  eapply Permutation_Forall; [apply Permutation_sym, sorted_perm|assumption].
Qed.
End SortedFacts.

(** ** Facts about the combinations *)

Section StronglySortedFacts.
Context {A B : Type} (R : A -> A -> Prop) (R' : B -> B -> Prop).

Lemma StronglySorted_app_intro (l1 l2 : list A) :
  StronglySorted R l1 -> StronglySorted R l2 ->
  (forall a b, In a l1 -> In b l2 -> R a b) ->
  StronglySorted R (l1 ++ l2).
Proof.
  induction l1 as [|x l1 IH]; intros H1 H2 Hc; simpl; [assumption|].
  inversion H1 as [|? ? H1' Hx]; subst.
  constructor.
  - apply IH; auto. intros a b Ha Hb. apply Hc; simpl; auto.
  - apply Forall_app. split; [assumption|].
    apply Forall_forall. intros b Hb. apply Hc; simpl; auto.
Qed.

Lemma StronglySorted_map_intro (f : A -> B) (l : list A) :
  (forall a b, R a b -> R' (f a) (f b)) ->
  StronglySorted R l -> StronglySorted R' (map f l).
Proof.
  intros Hf. induction 1 as [|x l Hs IH Hx]; simpl; constructor; auto.
  apply Forall_forall. intros y Hy. apply in_map_iff in Hy.
  destruct Hy as [a [<- Ha]]. apply Hf.
  rewrite Forall_forall in Hx. auto.
Qed.
End StronglySortedFacts.

Lemma range_In (n x : Z) : In x (Itertools.range n) <-> 0 <= x < n.
Proof.
  unfold Itertools.range. rewrite in_map_iff. split.
  - intros [i [<- Hi]]. apply in_seq in Hi. lia.
  - intros Hx. exists (Z.to_nat x). split; [lia|]. apply in_seq. lia.
Qed.

Lemma range_sorted (n : Z) : StronglySorted Z.lt (Itertools.range n).
Proof.
  unfold Itertools.range. generalize (Z.to_nat n) as m. generalize 0%nat as a.
  intros a m. revert a. induction m as [|m IH]; intros a; simpl; constructor.
  - apply IH.
  - apply Forall_forall. intros y Hy. apply in_map_iff in Hy.
    destruct Hy as [i [<- Hi]]. apply in_seq in Hi. lia.
Qed.

Lemma cwr2_In (pool : list Z) (y z : Z) :
  StronglySorted Z.lt pool ->
  In (y, z) (Itertools.cwr2 pool) <-> In y pool /\ In z pool /\ y <= z.
Proof.
  induction 1 as [|x rest Hs IH Hx].
  - simpl. tauto.
  - rewrite Forall_forall in Hx.
    cbn [Itertools.cwr2]. rewrite in_app_iff, in_map_iff, IH. split.
    + intros [[w [Hw Hin]]|[Hy [Hz Hle]]].
      * inversion Hw; subst. split; [now left|]. split; [assumption|].
        destruct Hin as [->|Hin]; [lia|]. apply Hx in Hin. lia.
      * simpl. tauto.
    + intros [[->|Hy] [Hz Hle]].
      * left. exists z. auto.
      * right. split; [assumption|]. split; [|assumption].
        destruct Hz as [->|Hz]; [|assumption].
        apply Hx in Hy. lia.
Qed.

Lemma cwr3_In (pool : list Z) (x y z : Z) :
  StronglySorted Z.lt pool ->
  In (x, y, z) (Itertools.combinations_with_replacement3 pool)
  <-> In x pool /\ In y pool /\ In z pool /\ x <= y /\ y <= z.
Proof.
  induction 1 as [|a rest Hs IH Ha].
  - simpl. tauto.
  - assert (Hp : StronglySorted Z.lt (a :: rest)) by (constructor; assumption).
    rewrite Forall_forall in Ha.
    cbn [Itertools.combinations_with_replacement3].
    rewrite in_app_iff, in_map_iff, IH. split.
    + intros [[[y' z'] [Hw Hin]]|[Hx [Hy [Hz Hle]]]].
      * simpl in Hw. inversion Hw; subst.
        apply (cwr2_In _ _ _ Hp) in Hin. destruct Hin as [Hy [Hz Hle]].
        split; [now left|]. repeat split; try assumption.
        destruct Hy as [->|Hy]; [lia|]. apply Ha in Hy. lia.
      * simpl. tauto.
    + intros [[->|Hx] [Hy [Hz [Hxy Hyz]]]].
      * left. exists (y, z). split; [reflexivity|].
        apply (cwr2_In _ _ _ Hp). auto.
      * right. split; [assumption|].
        assert (a < x) by auto.
        repeat split; try assumption.
        -- destruct Hy as [->|Hy]; [lia|assumption].
        -- destruct Hz as [->|Hz]; [lia|assumption].
Qed.

Lemma cwr2_sorted (pool : list Z) :
  StronglySorted Z.lt pool ->
  StronglySorted lex_lt2 (Itertools.cwr2 pool).
Proof.
  induction 1 as [|x rest Hs IH Hx].
  - constructor.
  - assert (Hp : StronglySorted Z.lt (x :: rest)) by (constructor; assumption).
    rewrite Forall_forall in Hx.
    cbn [Itertools.cwr2]. apply StronglySorted_app_intro.
    + apply (StronglySorted_map_intro Z.lt); [|assumption].
      intros a b Hab. right. simpl. auto.
    + assumption.
    + intros t [y z] Ht Hu. apply in_map_iff in Ht. destruct Ht as [w [<- _]].
      apply (cwr2_In _ _ _ Hs) in Hu. left. simpl. apply Hx. tauto.
Qed.

Lemma cwr3_sorted (pool : list Z) :
  StronglySorted Z.lt pool ->
  StronglySorted lex_lt (Itertools.combinations_with_replacement3 pool).
Proof.
  induction 1 as [|x rest Hs IH Hx].
  - constructor.
  - assert (Hp : StronglySorted Z.lt (x :: rest)) by (constructor; assumption).
    rewrite Forall_forall in Hx.
    cbn [Itertools.combinations_with_replacement3].
    apply StronglySorted_app_intro.
    + apply (StronglySorted_map_intro lex_lt2); [|now apply cwr2_sorted].
      intros [a b] [a' b'] Hab. unfold lex_lt2 in Hab. simpl in *. right. auto.
    + assumption.
    + intros t [[a b] c] Ht Hu. apply in_map_iff in Ht.
      destruct Ht as [[y z] [<- _]].
      apply (cwr3_In _ _ _ _ Hs) in Hu. simpl. left. apply Hx. tauto.
Qed.

Lemma index_order_irrefl (t : hkl) : ~ index_order t t.
Proof.
  destruct t as [[a b] c]. unfold index_order, key_then_gen, lex_lt. lia.
Qed.

Lemma square_sum_zero (t : hkl) : sort_by_square_sum t = 0 -> t = (0, 0, 0).
Proof.
  destruct t as [[a b] c]. unfold sort_by_square_sum. intros H.
  assert (a = 0) by nia. assert (b = 0) by nia. assert (c = 0) by nia.
  now subst.
Qed.

Lemma square_sum_nonneg (t : hkl) : 0 <= sort_by_square_sum t.
Proof. destruct t as [[a b] c]. unfold sort_by_square_sum. nia. Qed.

Lemma sorted_combinations_order (n : Z) :
  StronglySorted index_order
    (sorted sort_by_square_sum
       (Itertools.combinations_with_replacement3 (Itertools.range n))).
Proof. apply sorted_stable, cwr3_sorted, range_sorted. Qed.

Lemma HKL_LIST_eq :
  HKL_LIST =
  [(0,0,1); (0,1,1); (1,1,1); (0,0,2); (0,1,2); (1,1,2); (0,2,2); (0,0,3);
   (1,2,2); (0,1,3); (1,1,3); (2,2,2); (0,2,3); (1,2,3); (0,0,4); (0,1,4);
   (2,2,3); (0,3,3); (1,1,4); (1,3,3); (0,2,4); (1,2,4); (2,3,3); (2,2,4);
   (0,0,5); (0,3,4); (0,1,5); (1,3,4); (1,1,5); (3,3,3); (0,2,5); (2,3,4);
   (1,2,5); (0,4,4); (1,4,4); (2,2,5); (0,3,5); (3,3,4); (1,3,5); (2,4,4);
   (2,3,5); (0,4,5); (3,4,4); (1,4,5); (3,3,5); (2,4,5); (4,4,4); (0,5,5);
   (3,4,5); (1,5,5); (2,5,5); (4,4,5); (3,5,5); (4,5,5); (5,5,5)].
Proof. vm_compute. reflexivity. Qed.

(** C7. [get_possible_index_combinations n] lists exactly the triples
    [(h, k, l)] with [0 <= h <= k <= l <= n] other than [(0, 0, 0)], in
    ascending order of [h*h + k*k + l*l], triples of equal sum in the
    lexicographic order of their generation (so each triple once); for
    [n = 2] it is the nine triples of the test, and for [n = 5] it has 55
    triples. *)
Theorem get_possible_index_combinations_spec :
  (forall n a b c,
      In (a, b, c) (get_possible_index_combinations n)
      <-> (0 <= a /\ a <= b /\ b <= c /\ c <= n) /\ (a, b, c) <> (0, 0, 0))
  /\ (forall n, StronglySorted index_order (get_possible_index_combinations n))
  /\ get_possible_index_combinations 2
     = [(0,0,1); (0,1,1); (1,1,1); (0,0,2); (0,1,2); (1,1,2); (0,2,2);
        (1,2,2); (2,2,2)]
  /\ length (get_possible_index_combinations 5) = 55%nat.
Proof.
  split; [|split; [|split; vm_compute; reflexivity]].
  - intros n a b c. unfold get_possible_index_combinations, drop_first.
    pose proof (sorted_combinations_order (n + 1)) as Hs.
    assert (Hin : forall x y z,
      In (x, y, z) (sorted sort_by_square_sum
         (Itertools.combinations_with_replacement3 (Itertools.range (n + 1))))
      <-> 0 <= x /\ x <= y /\ y <= z /\ z <= n).
    { intros x y z. rewrite sorted_In, (cwr3_In _ _ _ _ (range_sorted _)).
      rewrite !range_In. lia. }
    destruct (sorted _ _) as [|t0 rest] eqn:E.
    + simpl. split; [tauto|]. intros [H _]. apply Hin in H. destruct H.
    + inversion Hs as [|? ? Hs' H0]; subst. rewrite Forall_forall in H0.
      assert (Ht0 : t0 = (0, 0, 0)).
      { assert (Hz : In (0, 0, 0) (t0 :: rest)).
        { destruct t0 as [[x y] z].
          assert (Hx : 0 <= x /\ x <= y /\ y <= z /\ z <= n)
            by (apply Hin; now left).
          apply Hin. lia. }
        destruct Hz as [Hz|Hz]; [assumption|].
        apply H0 in Hz. destruct Hz as [Hz|[Hz _]].
        - pose proof (square_sum_nonneg t0). simpl in Hz. lia.
        - apply square_sum_zero. simpl in Hz. lia. }
      subst t0. simpl. split.
      * intros H. split; [apply Hin; now right|].
        intros Heq. rewrite Heq in H. apply H0 in H.
        now apply index_order_irrefl in H.
      * intros [H Hne]. apply Hin in H. destruct H as [H|H]; [|assumption].
        congruence.
  - intros n. unfold get_possible_index_combinations, drop_first.
    pose proof (sorted_combinations_order (n + 1)) as Hs.
    destruct (sorted _ _); simpl; [constructor|]. now inversion Hs.
Qed.

(** ** Facts about numpy scalars *)

Lemma Rltb_true (x y : R) : Rltb x y = true <-> (x < y)%R.
Proof. unfold Rltb. destruct (Rlt_dec x y); split; intros; try tauto; discriminate. Qed.

Lemma Rltb_false (x y : R) : Rltb x y = false <-> (y <= x)%R.
Proof.
  unfold Rltb. destruct (Rlt_dec x y); split; intros;
    try discriminate; try lra; reflexivity.
Qed.

Lemma Reqb_true (x y : R) : Reqb x y = true <-> x = y.
Proof. unfold Reqb. destruct (Req_dec_T x y); split; intros; try tauto; discriminate. Qed.

Lemma Reqb_false (x y : R) : Reqb x y = false <-> x <> y.
Proof.
  unfold Reqb. destruct (Req_dec_T x y); split; intros; try tauto; try discriminate.
Qed.

Lemma lt_Finite (x y : R) : lt (Finite x) (Finite y) = true <-> (x < y)%R.
Proof. apply Rltb_true. Qed.

Lemma linalg_norm_square_sum (p : CrystalPlane) :
  linalg_norm (planenormal p) = Finite (R_sqrt.sqrt (IZR (square_sum p))).
Proof.
  unfold linalg_norm, planenormal, Np.sqrt, square_sum.
  now rewrite !plus_IZR, !mult_IZR.
Qed.

Lemma square_sum_cases (p : CrystalPlane) :
  (square_sum p = 0 /\ h p = 0 /\ k p = 0 /\ l p = 0) \/ 0 < square_sum p.
Proof.
  unfold square_sum. destruct p as [a b c]; simpl.
  destruct (Z.eq_dec a 0), (Z.eq_dec b 0), (Z.eq_dec c 0); subst;
    try (left; lia); right; nia.
Qed.

Lemma norm_pos (p : CrystalPlane) :
  0 < square_sum p -> (0 < R_sqrt.sqrt (IZR (square_sum p)))%R.
Proof. intros H. apply sqrt_lt_R0. now apply IZR_lt. Qed.

Lemma get_d_spacing_value (p : CrystalPlane) :
  get_d_spacing p
  = Ok (if Z.eqb (square_sum p) 0 then PosInf
        else Finite (1 / R_sqrt.sqrt (IZR (square_sum p)))).
Proof.
  unfold get_d_spacing. rewrite linalg_norm_square_sum. f_equal.
  destruct (square_sum_cases p) as [[E _]|Hpos].
  - rewrite E. simpl. rewrite sqrt_0. unfold truediv.
    replace (Reqb 0 0) with true by (symmetry; now apply Reqb_true).
    replace (Reqb 1 0) with false by (symmetry; apply Reqb_false; lra).
    unfold signed_inf.
    replace (Rltb 0 1) with true by (symmetry; apply Rltb_true; lra).
    reflexivity.
  - pose proof (norm_pos p Hpos) as Hn.
    replace (square_sum p =? 0) with false by (symmetry; apply Z.eqb_neq; lia).
    unfold truediv.
    replace (Reqb _ 0) with false by (symmetry; apply Reqb_false; lra).
    reflexivity.
Qed.

(** ** CrystalPlane.get_equivalent_planes *)

(** C8. Whatever the plane, [get_equivalent_planes] returns 48 entries:
    each of the 6 permutations of the list [h, k, l], in turn, under the 8
    sign patterns; nothing is removed when components repeat or vanish, so
    equal entries come out several times (48 times for the zero triple). *)
Theorem get_equivalent_planes_48 :
  (forall p, length (get_equivalent_planes p) = 48%nat)
  /\ (forall a b c,
        length (Itertools.permutations3 (a, b, c)) = 6%nat
        /\ length (Itertools.product3 [1; -1]) = 8%nat
        /\ get_equivalent_planes (mkCrystalPlane a b c)
           = flat_map
               (fun m => let '(x, y, z) := m in
                  map CrystalPlane_of
                    [(x, y, z); (x, y, - z); (x, - y, z); (x, - y, - z);
                     (- x, y, z); (- x, y, - z); (- x, - y, z);
                     (- x, - y, - z)])
               [(a, b, c); (a, c, b); (b, a, c); (b, c, a); (c, a, b);
                (c, b, a)])
  /\ get_equivalent_planes (mkCrystalPlane 0 0 0)
     = repeat (mkCrystalPlane 0 0 0) 48.
Proof.
  split; [now intros [a b c]|].
  split; [|reflexivity].
  intros a b c. split; [reflexivity|]. split; [reflexivity|].
  unfold get_equivalent_planes. cbn.
  rewrite ?Z.mul_1_r.
  replace (a * -1) with (- a) by ring.
  replace (b * -1) with (- b) by ring.
  replace (c * -1) with (- c) by ring.
  reflexivity.
Qed.

Lemma equivalent_square_sum (p q : CrystalPlane) :
  In q (get_equivalent_planes p) -> square_sum q = square_sum p.
Proof.
  destruct p as [a b c]. unfold get_equivalent_planes. cbn.
  intros H.
  repeat (destruct H as [H|H];
          [subst q; unfold square_sum; simpl; ring|]).
  destruct H.
Qed.



(** ** Crystal.__init__ *)

(** C9. A selector string other than "FCC", "BCC" and "SC" makes the
    construction raise (the enumeration's [ValueError]): no [Crystal] is
    produced. *)
Theorem Crystal_init_unrecognized :
  forall (value : string) (order : Z),
    value <> "FCC"%string -> value <> "BCC"%string -> value <> "SC"%string ->
    Crystal_init (inr value) order = Raise ValueError
    /\ forall c, Crystal_init (inr value) order <> Ok c.
Proof.
  intros value order HF HB HS.
  assert (E : Crystal_init (inr value) order = Raise ValueError).
  { unfold Crystal_init, CrystalSystem_call.
    apply String.eqb_neq in HF, HB, HS. now rewrite HF, HB, HS. }
  split; [assumption|]. intros c. rewrite E. discriminate.
Qed.

(** The three recognised strings are the values of the members. *)
Lemma Crystal_init_recognized (member : CrystalSystem) (order : Z) :
  Crystal_init (inr (CrystalSystem_value member)) order
  = Crystal_init (inl member) order
  /\ Crystal_init (inl member) order
     = Ok (mkCrystal member order (get_planes member order)).
Proof. now destruct member. Qed.

Lemma Crystal_init_unrecognized_witness :
  Crystal_init (inr "HCP"%string) 8 = Raise ValueError.
Proof.
  apply (Crystal_init_unrecognized "HCP" 8); discriminate.
Defined.

(** ** Crystal.get_planes *)

Lemma len_app {A} (xs ys : list A) : len (xs ++ ys) = len xs + len ys.
Proof. unfold len. rewrite length_app. lia. Qed.

Lemma firstn_to_nat_cons {A} (n : Z) (x : A) (xs : list A) :
  0 < n ->
  firstn (Z.to_nat n) (x :: xs) = x :: firstn (Z.to_nat (n - 1)) xs.
Proof.
  intros Hn. replace (Z.to_nat n) with (S (Z.to_nat (n - 1))) by lia.
  reflexivity.
Qed.

Lemma loop_SC_spec (order : Z) (candidates : list hkl) :
  forall hkl_list,
    len hkl_list <= order ->
    loop_SC order candidates hkl_list
    = if order - len hkl_list <? len candidates
      then Return (hkl_list ++ map CrystalPlane_of
                     (firstn (Z.to_nat (order - len hkl_list)) candidates))
      else Exhausted (hkl_list ++ map CrystalPlane_of candidates).
Proof.
  induction candidates as [|c rest IH]; intros acc Hle.
  - simpl. replace (order - len acc <? len []) with false
      by (symmetry; apply Z.ltb_ge; unfold len in *; simpl; lia).
    now rewrite app_nil_r.
  - cbn [loop_SC]. destruct (Z.eqb_spec (len acc) order) as [E|N].
    + replace (order - len acc <? len (c :: rest)) with true
        by (symmetry; apply Z.ltb_lt; unfold len in *; simpl; lia).
      replace (order - len acc) with 0 by lia. simpl.
      now rewrite app_nil_r.
    + rewrite IH by (rewrite len_app; unfold len in *; simpl; lia).
      rewrite len_app. change (len [CrystalPlane_of c]) with 1.
      replace (len (c :: rest)) with (len rest + 1)
        by (unfold len in *; simpl; lia).
      replace (order - (len acc + 1) <? len rest)
        with (order - len acc <? len rest + 1)
        by (destruct (Z.ltb_spec (order - len acc) (len rest + 1)),
                     (Z.ltb_spec (order - (len acc + 1)) (len rest));
            try reflexivity; lia).
      rewrite (firstn_to_nat_cons (order - len acc)) by lia.
      replace (order - (len acc + 1)) with (order - len acc - 1) by lia.
      simpl. now rewrite <- !app_assoc.
Qed.

Lemma loop_if_spec (condition : hkl -> bool) (order : Z)
  (candidates : list hkl) :
  forall hkl_list,
    len hkl_list < order ->
    loop_if condition order candidates hkl_list
    = if order - len hkl_list <=? len (filter condition candidates)
      then Return (hkl_list ++ map CrystalPlane_of
                     (firstn (Z.to_nat (order - len hkl_list))
                        (filter condition candidates)))
      else Exhausted
             (hkl_list ++ map CrystalPlane_of (filter condition candidates)).
Proof.
  induction candidates as [|c rest IH]; intros acc Hlt.
  - simpl. replace (order - len acc <=? len []) with false
      by (symmetry; apply Z.leb_gt; unfold len in *; simpl; lia).
    now rewrite app_nil_r.
  - cbn [loop_if filter]. destruct (condition c).
    + rewrite len_app. change (len [CrystalPlane_of c]) with 1.
      replace (len (c :: filter condition rest))
        with (len (filter condition rest) + 1) by (unfold len in *; simpl; lia).
      rewrite (firstn_to_nat_cons (order - len acc)) by lia.
      destruct (Z.eqb_spec (len acc + 1) order) as [E|N].
      * replace (order - len acc <=? len (filter condition rest) + 1)
          with true
          by (symmetry; apply Z.leb_le; unfold len in *; lia).
        replace (order - len acc - 1) with 0 by lia. reflexivity.
      * rewrite IH by (rewrite len_app; unfold len in *; simpl; lia).
        rewrite len_app. change (len [CrystalPlane_of c]) with 1.
        replace (order - (len acc + 1) <=? len (filter condition rest))
          with (order - len acc <=? len (filter condition rest) + 1)
          by (destruct
                (Z.leb_spec (order - len acc) (len (filter condition rest) + 1)),
                (Z.leb_spec (order - (len acc + 1)) (len (filter condition rest)));
              try reflexivity; lia).
        replace (order - (len acc + 1)) with (order - len acc - 1) by lia.
        simpl. now rewrite <- !app_assoc.
    + destruct (Z.eqb_spec (len acc) order) as [E|N]; [lia|].
      now apply IH.
Qed.

Lemma is_even_even (n : Z) : is_even n = Z.even n.
Proof.
  unfold is_even. rewrite Zmod_even. now destruct (Z.even n).
Qed.

Lemma conditions_are_selection_rules :
  (forall c, condition_BCC c = selection_rule BCC c)
  /\ (forall c, condition_FCC c = selection_rule FCC c).
Proof.
  split; intros [[a b] c]; unfold condition_BCC, condition_FCC, selection_rule, all;
    simpl; rewrite ?is_even_even, ?Z.negb_even, ?andb_true_r;
    now rewrite ?andb_assoc.
Qed.

Lemma filter_true {A} (xs : list A) : filter (fun _ => true) xs = xs.
Proof. induction xs; simpl; congruence. Qed.

Lemma get_planes_loop_spec (sys : CrystalSystem) (order : Z) :
  0 <= order ->
  let accepted := filter (selection_rule sys) HKL_LIST in
  get_planes_loop sys order
  = if match sys with
       | SC => order <? len accepted
       | _ => order <=? len accepted
       end
    then Return (map CrystalPlane_of (firstn (Z.to_nat order) accepted))
    else Exhausted (map CrystalPlane_of accepted).
Proof.
  intros Hle accepted. subst accepted.
  destruct conditions_are_selection_rules as [HB HF].
  destruct sys; unfold get_planes_loop.
  - destruct (Z.eq_dec order 0) as [->|N]; [vm_compute; reflexivity|].
    rewrite loop_if_spec by (unfold len in *; simpl; lia).
    rewrite (filter_ext _ _ HF). simpl app.
    now replace (order - len []) with order by (unfold len in *; simpl; lia).
  - destruct (Z.eq_dec order 0) as [->|N]; [vm_compute; reflexivity|].
    rewrite loop_if_spec by (unfold len in *; simpl; lia).
    rewrite (filter_ext _ _ HB). simpl app.
    now replace (order - len []) with order by (unfold len in *; simpl; lia).
  - rewrite loop_SC_spec by (unfold len in *; simpl; lia).
    replace (filter (selection_rule SC) HKL_LIST) with HKL_LIST.
    + simpl app.
      now replace (order - len []) with order by (unfold len in *; simpl; lia).
    + symmetry. erewrite filter_ext; [apply filter_true|].
      now intros [[a b] c].
Qed.

(** C6. For a plane count [order >= 0], the planes [get_planes] has
    collected when its loop ends are the first [order] candidates of
    [HKL_LIST], in input order, that pass the rule of the crystal system
    (every candidate for SC, an even [h + k + l] for BCC, three even or
    three odd indices for FCC); a list that is returned is this list and has
    [order] planes, and it is returned when the loop stops on the length
    test: up to 19 planes for FCC and 27 for BCC, and for SC, whose test
    precedes the append, as long as a candidate is left. *)
Theorem get_planes_selects :
  forall (sys : CrystalSystem) (order : Z),
    0 <= order ->
    let accepted := filter (selection_rule sys) HKL_LIST in
    let selected := map CrystalPlane_of (firstn (Z.to_nat order) accepted) in
    collected (get_planes_loop sys order) = selected
    /\ (forall ps, get_planes sys order = Some ps ->
                   ps = selected /\ len ps = order)
    /\ (get_planes sys order = Some selected
        <-> match sys with
            | SC => order < 55
            | BCC => order <= 27
            | FCC => order <= 19
            end).
Proof.
  intros sys order Hle accepted selected.
  pose proof (get_planes_loop_spec sys order Hle) as Hloop.
  cbv zeta in Hloop. fold accepted in Hloop. fold selected in Hloop.
  assert (Hlen : len accepted = match sys with SC => 55 | BCC => 27 | FCC => 19 end)
    by (subst accepted; destruct sys; vm_compute; reflexivity).
  assert (Hsel : forall b : bool,
    b = (match sys with SC => order <? len accepted | _ => order <=? len accepted end) ->
    b = true -> len selected = order).
  { intros b -> Hb. subst selected. unfold len in *.
    rewrite length_map, length_firstn.
    destruct sys; [apply Z.leb_le in Hb|apply Z.leb_le in Hb|apply Z.ltb_lt in Hb]; lia. }
  assert (Hall : forall b : bool,
    b = (match sys with SC => order <? len accepted | _ => order <=? len accepted end) ->
    b = false -> map CrystalPlane_of accepted = selected).
  { intros b -> Hb. subst selected. f_equal. symmetry. apply firstn_all2.
    unfold len in *.
    destruct sys; [apply Z.leb_gt in Hb|apply Z.leb_gt in Hb|apply Z.ltb_ge in Hb]; lia. }
  unfold get_planes. rewrite Hloop.
  destruct (match sys with SC => order <? len accepted | _ => order <=? len accepted end)
    eqn:Hb.
  - specialize (Hsel true eq_refl eq_refl). simpl. split; [reflexivity|]. split.
    + intros ps [= <-]. auto.
    + split; [|reflexivity]. intros _. rewrite Hlen in Hb.
      destruct sys; [apply Z.leb_le in Hb|apply Z.leb_le in Hb|apply Z.ltb_lt in Hb]; lia.
  - specialize (Hall false eq_refl eq_refl). simpl. split; [assumption|]. split.
    + discriminate.
    + split; [discriminate|]. intros H. rewrite Hlen in Hb.
      destruct sys; [apply Z.leb_gt in Hb|apply Z.leb_gt in Hb|apply Z.ltb_ge in Hb]; lia.
Qed.

Lemma get_planes_selects_witness :
  get_planes FCC 8
  = Some (map CrystalPlane_of
            [(1,1,1); (0,0,2); (0,2,2); (1,1,3); (2,2,2); (0,0,4); (1,3,3);
             (0,2,4)]).
Proof.
  apply (proj2 (proj2 (proj2 (get_planes_selects FCC 8 ltac:(lia))))).
  lia.
Defined.

(** C1, as the code has it. When fewer than [order] candidates pass the
    rule, the loop of [get_planes] runs out of candidates with all the
    accepted planes collected, and the method returns [None], not that
    list. *)
Theorem get_planes_exhausted_returns_None :
  forall (sys : CrystalSystem) (order : Z),
    len (filter (selection_rule sys) HKL_LIST) < order ->
    get_planes sys order = None
    /\ collected (get_planes_loop sys order)
       = map CrystalPlane_of (filter (selection_rule sys) HKL_LIST).
Proof.
  intros sys order Hlt.
  assert (Hle : 0 <= order) by (unfold len in Hlt; lia).
  pose proof (get_planes_loop_spec sys order Hle) as Hloop.
  cbv zeta in Hloop. unfold get_planes. rewrite Hloop.
  replace (match sys with
           | SC => order <? len (filter (selection_rule sys) HKL_LIST)
           | _ => order <=? len (filter (selection_rule sys) HKL_LIST)
           end) with false; [split; reflexivity|].
  symmetry. destruct sys; [apply Z.leb_gt|apply Z.leb_gt|apply Z.ltb_ge]; lia.
Qed.

Lemma get_planes_exhausted_returns_None_witness :
  get_planes FCC 20 = None
  /\ length (collected (get_planes_loop FCC 20)) = 19%nat.
Proof.
  destruct (get_planes_exhausted_returns_None FCC 20) as [H1 H2].
  - vm_compute. reflexivity.
  - split; [exact H1|]. rewrite H2. vm_compute. reflexivity.
Defined.

(** The SC loop tests the length before it appends: with all 55 candidates
    asked for, the list is complete when the candidates run out, and
    [None] is returned all the same. *)
Lemma get_planes_SC_55 :
  get_planes SC 55 = None
  /\ collected (get_planes_loop SC 55) = map CrystalPlane_of HKL_LIST.
Proof. split; vm_compute; reflexivity. Qed.

(** The crystal is built all the same, and [find_pairs] then fails on
    [combinations(None, 2)]. *)
Lemma find_pairs_without_planes (space_ratio angle : R) :
  Crystal_init (inr "FCC"%string) 20 = Ok (mkCrystal FCC 20 None)
  /\ find_pairs (mkCrystal FCC 20 None) space_ratio angle = Raise TypeError.
Proof.
  split; [|reflexivity].
  unfold Crystal_init. simpl.
  replace (get_planes FCC 20) with (@None (list CrystalPlane))
    by (vm_compute; reflexivity).
  reflexivity.
Qed.

(** ** Crystal.get_d_ratio and Crystal.find_pairs *)

Lemma mapM_Ok {A B} (f : A -> pyresult B) (g : A -> B) (xs : list A) :
  (forall x, f x = Ok (g x)) -> mapM f xs = Ok (map g xs).
Proof.
  intros H. induction xs as [|x xs IH]; simpl; [reflexivity|].
  now rewrite H, IH.
Qed.

Lemma get_d_spacing_nonzero (p : CrystalPlane) :
  0 < square_sum p -> get_d_spacing p = Ok (Finite (d_spacing p)).
Proof.
  intros H. rewrite get_d_spacing_value.
  now replace (square_sum p =? 0) with false by (symmetry; apply Z.eqb_neq; lia).
Qed.

Lemma d_spacing_pos (p : CrystalPlane) :
  0 < square_sum p -> (0 < d_spacing p)%R.
Proof.
  intros H. unfold d_spacing. pose proof (norm_pos p H).
  apply Rdiv_lt_0_compat; lra.
Qed.

(** The entry of [get_d_ratio] for one pair. *)
Lemma get_d_ratio_Some (self : Crystal) (ps : list CrystalPlane) :
  planes self = Some ps ->
  exists ratio : CrystalPlane * CrystalPlane -> np_float,
    get_d_ratio self
    = Ok (map (fun pair_ => (ratio pair_, pair_)) (Itertools.combinations2 ps))
    /\ (forall first second d0 d1,
          get_d_spacing first = Ok d0 -> get_d_spacing second = Ok d1 ->
          ratio (first, second) = truediv d0 d1).
Proof.
  intros Hps.
  exists (fun pair_ =>
    truediv (truediv (Finite 1) (linalg_norm (planenormal (fst pair_))))
            (truediv (Finite 1) (linalg_norm (planenormal (snd pair_))))).
  split.
  - unfold get_d_ratio. rewrite Hps. now apply mapM_Ok.
  - intros first second d0 d1 [= <-] [= <-]. reflexivity.
Qed.

Lemma possible_pairs_of_map (space_ratio : R)
  (ratio : CrystalPlane * CrystalPlane -> np_float)
  (pairs : list (CrystalPlane * CrystalPlane)) :
  possible_pairs_of space_ratio (map (fun pair_ => (ratio pair_, pair_)) pairs)
  = filter (fun pair_ =>
              in_limits (space_ratio * 0.8) (space_ratio * 1.2) (ratio pair_))
      pairs.
Proof.
  unfold possible_pairs_of.
  induction pairs as [|x xs IH]; simpl; [reflexivity|].
  destruct (in_limits _ _ (ratio x)); simpl; now rewrite IH.
Qed.

Lemma combinations2_In {A} (xs : list A) (a b : A) :
  In (a, b) (Itertools.combinations2 xs)
  <-> exists i j, (i < j)%nat /\ nth_error xs i = Some a
                  /\ nth_error xs j = Some b.
Proof.
  induction xs as [|x xs IH]; simpl.
  - split; [tauto|]. intros [i [j [_ [H _]]]]. now destruct i.
  - rewrite in_app_iff, in_map_iff, IH. split.
    + intros [[y [[= <- <-] Hy]]|[i [j [Hij [Hi Hj]]]]].
      * apply In_nth_error in Hy. destruct Hy as [j Hj].
        exists 0%nat, (S j). repeat split; [lia|assumption].
      * exists (S i), (S j). repeat split; [lia|assumption..].
    + intros [i [j [Hij [Hi Hj]]]].
      destruct j as [|j]; [lia|]. simpl in Hj. destruct i as [|i].
      * left. exists b. simpl in Hi. inversion Hi; subst. split; [reflexivity|].
        eapply nth_error_In; eauto.
      * right. exists i, j. repeat split; [lia|assumption..].
Qed.

(** The inner loop finds the first entry of the list that passes the test. *)
Lemma scan_equivalents_find (vector_1 : CrystalPlane) (angle : R)
  (vector_2_lst : list CrystalPlane) (out : list MatchResult) :
  scan_equivalents vector_1 angle vector_2_lst out
  = out ++ match find (fun vector_2 =>
                         lt (angle_between vector_1 vector_2) (Finite angle))
                   vector_2_lst with
           | Some vector_2 =>
               [mkMatchResult vector_1 vector_2
                  (get_zone_axis vector_1 vector_2)]
           | None => []
           end.
Proof.
  induction vector_2_lst as [|v rest IH]; simpl; [now rewrite app_nil_r|].
  destruct (lt (angle_between vector_1 v) (Finite angle)); [reflexivity|].
  apply IH.
Qed.

Lemma scan_pairs_flat_map (angle : R)
  (pairs : list (CrystalPlane * CrystalPlane)) :
  forall out,
    scan_pairs angle pairs out
    = out ++ flat_map
               (fun pair_ =>
                  scan_equivalents (fst pair_) angle
                    (get_equivalent_planes (snd pair_)) [])
               pairs.
Proof.
  induction pairs as [|x xs IH]; intros out; cbn [scan_pairs flat_map];
    [now rewrite app_nil_r|].
  rewrite IH, scan_equivalents_find.
  rewrite (scan_equivalents_find (fst x) angle _ []).
  now rewrite app_assoc.
Qed.

Lemma find_first {A} (f : A -> bool) (xs : list A) :
  match find f xs with
  | Some x =>
      exists before after,
        xs = before ++ x :: after
        /\ (forall y, In y before -> f y = false)
        /\ f x = true
  | None => forall y, In y xs -> f y = false
  end.
Proof.
  induction xs as [|x xs IH]; simpl; [tauto|].
  destruct (f x) eqn:E.
  - exists [], xs. simpl. tauto.
  - destruct (find f xs) as [z|].
    + destruct IH as [before [after [-> [Hb Hz]]]].
      exists (x :: before), after. simpl. repeat split; [|assumption].
      intros y [<-|Hy]; auto.
    + intros y [<-|Hy]; auto.
Qed.

Lemma truediv_Finite (x y : R) :
  y <> 0%R -> truediv (Finite x) (Finite y) = Finite (x / y).
Proof.
  intros H. unfold truediv.
  now replace (Reqb y 0) with false by (symmetry; now apply Reqb_false).
Qed.

Lemma in_limits_Finite (lower_limit higher_limit r : R) :
  in_limits lower_limit higher_limit (Finite r) = true
  <-> (lower_limit < r < higher_limit)%R.
Proof.
  unfold in_limits. rewrite andb_true_iff, !lt_Finite. tauto.
Qed.

Lemma angle_between_nonzero (p q : CrystalPlane) :
  0 < square_sum p -> 0 < square_sum q ->
  angle_between p q = Finite (angle_degrees p q).
Proof.
  intros Hp Hq. pose proof (norm_pos p Hp). pose proof (norm_pos q Hq).
  unfold angle_between, unit_vector. rewrite !linalg_norm_square_sum.
  unfold planenormal, astype_float, div_scalar, of_int.
  rewrite !truediv_Finite by lra.
  unfold dot, mul, add, clip, arccos, rad2deg, mul.
  fold (cos_between p q).
  set (c := Rmin (Rmax (cos_between p q) (-1)) 1).
  assert (Hc : (-1 <= c <= 1)%R).
  { subst c. split.
    - apply Rmin_glb; [apply Rmax_r|lra].
    - apply Rmin_r. }
  replace (Rltb c (-1)) with false by (symmetry; apply Rltb_false; lra).
  replace (Rltb 1 c) with false by (symmetry; apply Rltb_false; lra).
  reflexivity.
Qed.

Lemma loop_SC_incl (order : Z) (candidates : list hkl) :
  forall hkl_list p,
    In p (collected (loop_SC order candidates hkl_list)) ->
    In p hkl_list \/ In p (map CrystalPlane_of candidates).
Proof.
  induction candidates as [|c rest IH]; intros acc p; cbn [loop_SC]; [auto|].
  destruct (len acc =? order); [auto|]. intros H. apply IH in H.
  rewrite in_app_iff in H. simpl in *. tauto.
Qed.

Lemma loop_if_incl (condition : hkl -> bool) (order : Z)
  (candidates : list hkl) :
  forall hkl_list p,
    In p (collected (loop_if condition order candidates hkl_list)) ->
    In p hkl_list \/ In p (map CrystalPlane_of candidates).
Proof.
  induction candidates as [|c rest IH]; intros acc p; cbn [loop_if]; [auto|].
  destruct (condition c).
  - destruct (len _ =? order).
    + simpl. rewrite in_app_iff. simpl. tauto.
    + intros H. apply IH in H. rewrite in_app_iff in H. simpl in *. tauto.
  - destruct (len _ =? order); [simpl; tauto|].
    intros H. apply IH in H. simpl. tauto.
Qed.

(** The planes of a crystal are candidates of [HKL_LIST], so none is the
    zero triple. *)
Lemma get_planes_nonzero (sys : CrystalSystem) (order : Z)
  (ps : list CrystalPlane) :
  get_planes sys order = Some ps ->
  Forall (fun p => 0 < square_sum p) ps.
Proof.
  intros H. apply Forall_forall. intros p Hp.
  assert (Hin : In p (map CrystalPlane_of HKL_LIST)).
  { unfold get_planes in H.
    destruct (get_planes_loop sys order) as [l|l] eqn:E; [|discriminate].
    inversion H; subst l.
    assert (Hc : In p (collected (get_planes_loop sys order)))
      by (rewrite E; exact Hp).
    unfold get_planes_loop in Hc.
    destruct sys;
      [apply loop_if_incl in Hc|apply loop_if_incl in Hc|apply loop_SC_incl in Hc];
      destruct Hc as [[]|Hc]; exact Hc. }
  assert (Hall : forallb (fun p => 0 <? square_sum p)
                   (map CrystalPlane_of HKL_LIST) = true)
    by (vm_compute; reflexivity).
  rewrite forallb_forall in Hall. apply Z.ltb_lt. auto.
Qed.

Lemma get_planes_FCC_8 :
  get_planes FCC 8
  = Some [mkCrystalPlane 1 1 1; mkCrystalPlane 0 0 2; mkCrystalPlane 0 2 2;
          mkCrystalPlane 1 1 3; mkCrystalPlane 2 2 2; mkCrystalPlane 0 0 4;
          mkCrystalPlane 1 3 3; mkCrystalPlane 0 2 4].
Proof. vm_compute. reflexivity. Qed.

(** ** The run of [main]: FCC, 8 planes, ratio 28.93 / 11.11, 66 degrees *)

Lemma sqrt_3_bounds : (1.7 < R_sqrt.sqrt 3 < 1.75)%R.
Proof.
  assert (H1 : (R_sqrt.sqrt (1.7 * 1.7) < R_sqrt.sqrt 3)%R)
    by (apply sqrt_lt_1; lra).
  assert (H2 : (R_sqrt.sqrt 3 < R_sqrt.sqrt (1.75 * 1.75))%R)
    by (apply sqrt_lt_1; lra).
  rewrite sqrt_square in H1, H2 by lra. lra.
Qed.

Lemma sqrt_16 : R_sqrt.sqrt 16 = 4%R.
Proof. replace 16%R with (4 * 4)%R by lra. apply sqrt_square. lra. Qed.

Lemma acos_below_60 (x : R) :
  (1 / 2 < x <= 1)%R -> (acos x * (180 / PI) < 60)%R.
Proof.
  intros Hx. pose proof PI_RGT_0 as Hpi.
  pose proof (acos_bound x) as Hb.
  assert (H : (acos x < PI / 3)%R).
  { apply cos_decreasing_0; try lra.
    rewrite cos_PI3, cos_acos; lra. }
  replace 60%R with (PI / 3 * (180 / PI))%R by (field; lra).
  apply Rmult_lt_compat_r; [|assumption].
  apply Rdiv_lt_0_compat; lra.
Qed.

Lemma main_ratio :
  (28.93 / 11.11 * 0.8
   < d_spacing (mkCrystalPlane 1 1 1) / d_spacing (mkCrystalPlane 0 0 4)
   < 28.93 / 11.11 * 1.2)%R.
Proof.
  unfold d_spacing, square_sum. simpl. rewrite sqrt_16.
  pose proof sqrt_3_bounds as Hs.
  assert (H1 : (/ 1.75 < / R_sqrt.sqrt 3)%R)
    by (apply Rinv_lt_contravar; nra).
  assert (H2 : (/ R_sqrt.sqrt 3 < / 1.7)%R)
    by (apply Rinv_lt_contravar; nra).
  replace (1 / R_sqrt.sqrt 3 / (1 / 4))%R with (4 * / R_sqrt.sqrt 3)%R
    by (field; lra).
  lra.
Qed.

Lemma main_angle :
  (angle_degrees (mkCrystalPlane 1 1 1) (mkCrystalPlane 0 0 4) < 66)%R.
Proof.
  unfold angle_degrees, cos_between, square_sum. simpl. rewrite sqrt_16.
  pose proof sqrt_3_bounds as Hs.
  assert (H1 : (/ 1.75 < / R_sqrt.sqrt 3)%R)
    by (apply Rinv_lt_contravar; nra).
  assert (H2 : (/ R_sqrt.sqrt 3 < / 1.7)%R)
    by (apply Rinv_lt_contravar; nra).
  replace (1 / R_sqrt.sqrt 3 * (0 / 4) + 1 / R_sqrt.sqrt 3 * (0 / 4)
           + 1 / R_sqrt.sqrt 3 * (4 / 4))%R
    with (/ R_sqrt.sqrt 3)%R by (field; lra).
  rewrite Rmax_left by lra. rewrite Rmin_left by lra.
  pose proof (acos_below_60 (/ R_sqrt.sqrt 3)). lra.
Qed.


Lemma flat_map_filter {A B} (g : A -> list B) (keep : A -> bool)
  (xs : list A) :
  flat_map g (filter keep xs)
  = flat_map (fun x => if keep x then g x else []) xs.
Proof.
  induction xs as [|x xs IH]; simpl; [reflexivity|].
  destruct (keep x); simpl; now rewrite IH.
Qed.

(** What [find_pairs] prints, over the combinations of the planes. *)
Lemma find_pairs_Some (self : Crystal) (ps : list CrystalPlane)
  (space_ratio angle : R) :
  planes self = Some ps ->
  exists ratio : CrystalPlane * CrystalPlane -> np_float,
    (forall first second d0 d1,
        get_d_spacing first = Ok d0 -> get_d_spacing second = Ok d1 ->
        ratio (first, second) = truediv d0 d1)
    /\ find_pairs self space_ratio angle
       = Ok (flat_map
               (fun pair_ =>
                  scan_equivalents (fst pair_) angle
                    (get_equivalent_planes (snd pair_)) [])
               (filter
                  (fun pair_ =>
                     in_limits (space_ratio * 0.8) (space_ratio * 1.2)
                       (ratio pair_))
                  (Itertools.combinations2 ps))).
Proof.
  intros Hps. destruct (get_d_ratio_Some self ps Hps) as [ratio [Hd Hr]].
  exists ratio. split; [exact Hr|].
  unfold find_pairs. rewrite Hd. cbn [bind].
  now rewrite scan_pairs_flat_map, possible_pairs_of_map.
Qed.

(** C2. [find_pairs] prints a sequence of matches, each with its two planes
    and their zone axis, that follows the combinations of the planes: every
    combination gives its match or nothing, in the order of
    [combinations(planes, 2)]. The sequence is a function of the crystal and
    of the two arguments. For the FCC crystal of 8 planes, the ratio
    28.93 / 11.11 and 66 degrees it is not empty: it has the match of
    (1, 1, 1) with (0, 0, 4), of zone axis (4, -4, 0). *)
Theorem find_pairs_output :
  (forall (self : Crystal) (ps : list CrystalPlane) (space_ratio angle : R),
      planes self = Some ps ->
      exists (out : list MatchResult)
             (f : CrystalPlane * CrystalPlane -> option MatchResult),
        find_pairs self space_ratio angle = Ok out
        /\ out = filter_map f (Itertools.combinations2 ps)
        /\ forall pair_ m,
             f pair_ = Some m ->
             vector_1 m = fst pair_
             /\ In (vector_2 m) (get_equivalent_planes (snd pair_))
             /\ zone_axis m = get_zone_axis (vector_1 m) (vector_2 m))
  /\ (forall (self : Crystal) (space_ratio angle : R) r1 r2,
        find_pairs self space_ratio angle = r1 ->
        find_pairs self space_ratio angle = r2 -> r1 = r2)
  /\ (exists (self : Crystal) (out : list MatchResult),
        Crystal_init (inr "FCC"%string) 8 = Ok self
        /\ find_pairs self (28.93 / 11.11) 66 = Ok out
        /\ out <> []
        /\ In (mkMatchResult (mkCrystalPlane 1 1 1) (mkCrystalPlane 0 0 4)
                 (4, -4, 0)) out).
Proof.
  split; [|split].
  - intros self ps space_ratio angle Hps.
    destruct (find_pairs_Some self ps space_ratio angle Hps)
      as [ratio [_ Hout]].
    eexists.
    exists (fun pair_ =>
      if in_limits (space_ratio * 0.8) (space_ratio * 1.2) (ratio pair_)
      then match find (fun q => lt (angle_between (fst pair_) q) (Finite angle))
                   (get_equivalent_planes (snd pair_)) with
           | Some q =>
               Some (mkMatchResult (fst pair_) q (get_zone_axis (fst pair_) q))
           | None => None
           end
      else None).
    split; [exact Hout|]. split.
    + rewrite flat_map_filter. unfold filter_map. apply flat_map_ext.
      intros pair_. destruct (in_limits _ _ _); [|reflexivity].
      rewrite scan_equivalents_find.
      now destruct (find _ _).
    + intros pair_ m. destruct (in_limits _ _ _); [|discriminate].
      pose proof (find_first
                    (fun q => lt (angle_between (fst pair_) q) (Finite angle))
                    (get_equivalent_planes (snd pair_))) as Hf.
      destruct (find _ _) as [q|]; [|discriminate].
      intros [= <-]. cbn [vector_1 vector_2 zone_axis].
      destruct Hf as [before [after [E _]]].
      repeat split. rewrite E. apply in_elt.
  - intros. congruence.
  - set (p111 := mkCrystalPlane 1 1 1). set (p004 := mkCrystalPlane 0 0 4).
    exists (mkCrystal FCC 8 (get_planes FCC 8)).
    destruct (find_pairs_Some (mkCrystal FCC 8 (get_planes FCC 8)) _
                (28.93 / 11.11) 66 get_planes_FCC_8) as [ratio [Hr Hout]].
    eexists. split; [reflexivity|]. split; [exact Hout|].
    assert (Hin : In (mkMatchResult p111 p004 (4, -4, 0))
      (flat_map
         (fun pair_ =>
            scan_equivalents (fst pair_) 66
              (get_equivalent_planes (snd pair_)) [])
         (filter
            (fun pair_ =>
               in_limits (28.93 / 11.11 * 0.8) (28.93 / 11.11 * 1.2)
                 (ratio pair_))
            (Itertools.combinations2
               [mkCrystalPlane 1 1 1; mkCrystalPlane 0 0 2;
                mkCrystalPlane 0 2 2; mkCrystalPlane 1 1 3;
                mkCrystalPlane 2 2 2; mkCrystalPlane 0 0 4;
                mkCrystalPlane 1 3 3; mkCrystalPlane 0 2 4])))).
    { assert (H1 : 0 < square_sum p111) by reflexivity.
      assert (H4 : 0 < square_sum p004) by reflexivity.
      apply in_flat_map. exists (p111, p004). split.
      - apply filter_In. split; [simpl; tauto|].
        rewrite (Hr p111 p004 _ _ (get_d_spacing_nonzero _ H1)
                   (get_d_spacing_nonzero _ H4)).
        rewrite truediv_Finite by (pose proof (d_spacing_pos _ H4); lra).
        apply in_limits_Finite. exact main_ratio.
      - cbn [fst snd]. rewrite scan_equivalents_find.
        assert (E : exists rest, get_equivalent_planes p004 = p004 :: rest)
          by (eexists; vm_compute; reflexivity).
        destruct E as [rest ->]. cbn [find].
        rewrite (angle_between_nonzero _ _ H1 H4).
        replace (lt (Finite (angle_degrees p111 p004)) (Finite 66)) with true
          by (symmetry; apply lt_Finite; exact main_angle).
        left. reflexivity. }
    split; [|exact Hin].
    intros E. rewrite E in Hin. destruct Hin.
Qed.

Lemma find_pairs_output_witness :
  exists out,
    find_pairs (mkCrystal FCC 8 (get_planes FCC 8)) (28.93 / 11.11) 66
    = Ok out.
Proof.
  destruct (proj1 find_pairs_output
              (mkCrystal FCC 8 (get_planes FCC 8))
              (map CrystalPlane_of
                 [(1,1,1); (0,0,2); (0,2,2); (1,1,3); (2,2,2); (0,0,4);
                  (1,3,3); (0,2,4)])
              (28.93 / 11.11)%R 66%R)
    as [out [f [H _]]].
  - vm_compute. reflexivity.
  - exists out. exact H.
Defined.

(** * Further properties of the code *)

(** ** CrystalPlane.get_zone_axis *)

(** Swapping the planes negates the zone axis, and a plane has the zero
    zone axis with every multiple of itself. *)
Theorem zone_axis_antisymmetric (p1 p2 : CrystalPlane) :
  get_zone_axis p2 p1 = imul (get_zone_axis p1 p2) (-1, -1, -1)
  /\ forall n : Z,
       get_zone_axis p1 (mkCrystalPlane (n * h p1) (n * k p1) (n * l p1))
       = (0, 0, 0).
Proof.
  destruct p1 as [a1 a2 a3], p2 as [b1 b2 b3].
  unfold get_zone_axis, planenormal, cross, imul. simpl. split.
  - f_equal; [f_equal|]; ring.
  - intros n. f_equal; [f_equal|]; ring.
Qed.

(** ** The orbit of a plane *)

Ltac pick_entry :=
  repeat first [left; reflexivity | right]; try contradiction.

Lemma get_equivalent_planes_listed (a b c : Z) :
  get_equivalent_planes (mkCrystalPlane a b c)
  = flat_map
      (fun m => let '(x, y, z) := m in
         map CrystalPlane_of
           [(x, y, z); (x, y, - z); (x, - y, z); (x, - y, - z);
            (- x, y, z); (- x, y, - z); (- x, - y, z); (- x, - y, - z)])
      [(a, b, c); (a, c, b); (b, a, c); (b, c, a); (c, a, b); (c, b, a)].
Proof.
  unfold get_equivalent_planes. cbn. rewrite ?Z.mul_1_r.
  replace (a * -1) with (- a) by ring.
  replace (b * -1) with (- b) by ring.
  replace (c * -1) with (- c) by ring.
  reflexivity.
Qed.

Lemma abs_eq_cases (n m : Z) : Z.abs n = Z.abs m -> n = m \/ n = - m.
Proof. lia. Qed.

Lemma orbit_abs_indices (p q : CrystalPlane) :
  In q (get_equivalent_planes p)
  <-> In (abs_indices q) (Itertools.permutations3 (abs_indices p)).
Proof.
  destruct p as [a b c], q as [x y z].
  rewrite get_equivalent_planes_listed. unfold abs_indices.
  cbn [h k l Itertools.permutations3 flat_map map app CrystalPlane_of In].
  split.
  - intros H.
    repeat (destruct H as [H|H];
            [inversion H; subst; rewrite ?Z.abs_opp; pick_entry|]).
    destruct H.
  - intros H.
    repeat (destruct H as [H|H];
      [inversion H as [[Hx Hy Hz]];
       symmetry in Hx, Hy, Hz;
       apply abs_eq_cases in Hx, Hy, Hz;
       destruct Hx, Hy, Hz; subst; pick_entry|]).
    destruct H.
Qed.

(** The planes equivalent to [p] are exactly those whose absolute indices
    are the absolute indices of [p] in some arrangement. *)
Theorem equivalent_iff_abs_indices (p q : CrystalPlane) :
  In q (get_equivalent_planes p)
  <-> In (abs_indices q) (Itertools.permutations3 (abs_indices p)).
Proof. exact (orbit_abs_indices p q). Qed.

Lemma permutations3_refl {A} (t : A * A * A) :
  In t (Itertools.permutations3 t).
Proof. destruct t as [[a b] c]. now left. Qed.

Lemma permutations3_sym {A} (t u : A * A * A) :
  In u (Itertools.permutations3 t) -> In t (Itertools.permutations3 u).
Proof.
  destruct t as [[a b] c]. intros H. simpl in H.
  repeat (destruct H as [H|H]; [subst u; simpl; pick_entry|]).
  destruct H.
Qed.

Lemma permutations3_trans {A} (t u v : A * A * A) :
  In u (Itertools.permutations3 t) -> In v (Itertools.permutations3 u) ->
  In v (Itertools.permutations3 t).
Proof.
  destruct t as [[a b] c]. intros H. simpl in H.
  repeat (destruct H as [H|H];
    [subst u; intros H'; simpl in H';
     repeat (destruct H' as [H'|H']; [subst v; simpl; pick_entry|]);
     destruct H'|]).
  destruct H.
Qed.

(** Being equivalent is an equivalence relation: a plane is in its own
    orbit, and the orbits of two equivalent planes hold the same planes. *)
Theorem equivalent_equivalence :
  (forall p, equivalent p p)
  /\ (forall p q, equivalent p q -> equivalent q p)
  /\ (forall p q r, equivalent p q -> equivalent q r -> equivalent p r).
Proof.
  unfold equivalent. split; [|split].
  - intros p. apply orbit_abs_indices, permutations3_refl.
  - intros p q H. apply orbit_abs_indices in H.
    apply orbit_abs_indices. now apply permutations3_sym.
  - intros p q r H1 H2. apply orbit_abs_indices in H1, H2.
    apply orbit_abs_indices. eapply permutations3_trans; eauto.
Qed.

(** ** CrystalPlane.angle_between *)

Lemma cos_between_sym (p q : CrystalPlane) :
  cos_between p q = cos_between q p.
Proof. unfold cos_between. cbv zeta. ring. Qed.

Lemma angle_degrees_range (p q : CrystalPlane) :
  (0 <= angle_degrees p q <= 180)%R.
Proof.
  unfold angle_degrees. pose proof PI_RGT_0 as Hpi.
  pose proof (acos_bound (Rmin (Rmax (cos_between p q) (-1)) 1)) as [H0 H1].
  assert (Hk : (0 < 180 / PI)%R) by (apply Rdiv_lt_0_compat; lra).
  split.
  - apply Rmult_le_pos; lra.
  - replace 180%R with (PI * (180 / PI))%R at 2 by (field; lra).
    apply Rmult_le_compat_r; lra.
Qed.

(** Between two planes other than the zero triple the angle is a number of
    degrees between 0 and 180, the same in both directions. *)
Theorem angle_between_range_sym (p q : CrystalPlane) :
  0 < square_sum p -> 0 < square_sum q ->
  exists a : R,
    angle_between p q = Finite a
    /\ angle_between q p = Finite a
    /\ (0 <= a <= 180)%R.
Proof.
  intros Hp Hq. exists (angle_degrees p q).
  rewrite (angle_between_nonzero p q Hp Hq), (angle_between_nonzero q p Hq Hp).
  split; [reflexivity|]. split; [|apply angle_degrees_range].
  unfold angle_degrees. now rewrite (cos_between_sym q p).
Qed.

Lemma angle_between_range_sym_witness :
  exists a : R,
    angle_between (mkCrystalPlane 1 1 1) (mkCrystalPlane 0 0 4) = Finite a
    /\ angle_between (mkCrystalPlane 0 0 4) (mkCrystalPlane 1 1 1) = Finite a
    /\ (0 <= a <= 180)%R.
Proof.
  apply (angle_between_range_sym (mkCrystalPlane 1 1 1) (mkCrystalPlane 0 0 4));
    reflexivity.
Defined.

Lemma Reqb_refl (x : R) : Reqb x x = true.
Proof. now apply Reqb_true. Qed.

Lemma unit_vector_zero (p : CrystalPlane) :
  square_sum p = 0 -> unit_vector (planenormal p) = (NaN, NaN, NaN).
Proof.
  intros H. destruct (square_sum_cases p) as [[_ [Hh [Hk Hl]]]|]; [|lia].
  unfold unit_vector. rewrite linalg_norm_square_sum, H.
  unfold planenormal. rewrite Hh, Hk, Hl. simpl.
  unfold of_int. rewrite sqrt_0. unfold truediv. now rewrite !Reqb_refl.
Qed.

Lemma dot_NaN_l (v : fvec) : dot (NaN, NaN, NaN) v = NaN.
Proof. now destruct v as [[a b] c]. Qed.

Lemma dot_NaN_r (v : fvec) : dot v (NaN, NaN, NaN) = NaN.
Proof.
  destruct v as [[a b] c]. unfold dot.
  destruct a, b, c; reflexivity.
Qed.

(** With the zero triple on either side the angle is a NaN (the normal is
    divided by a zero norm), which is below no threshold. *)
Theorem angle_between_zero_plane (p q : CrystalPlane) (angle : np_float) :
  square_sum p = 0 \/ square_sum q = 0 ->
  angle_between p q = NaN /\ lt (angle_between p q) angle = false.
Proof.
  intros H.
  assert (E : angle_between p q = NaN).
  { unfold angle_between. destruct H as [H|H]; rewrite (unit_vector_zero _ H).
    - now rewrite dot_NaN_l.
    - now rewrite dot_NaN_r. }
  rewrite E. split; reflexivity.
Qed.

Lemma angle_between_zero_plane_witness :
  angle_between (mkCrystalPlane 0 0 0) (mkCrystalPlane 1 2 3) = NaN.
Proof.
  apply (angle_between_zero_plane (mkCrystalPlane 0 0 0)
           (mkCrystalPlane 1 2 3) (Finite 66)).
  left. reflexivity.
Defined.

(** ** CrystalPlane.get_d_spacing *)




(** ** The plane list of a crystal *)

Lemma loop_SC_Return (order : Z) (candidates : list hkl) :
  forall hkl_list ps,
    loop_SC order candidates hkl_list = Return ps -> len ps = order.
Proof.
  induction candidates as [|c rest IH]; intros acc ps; cbn [loop_SC];
    [discriminate|].
  destruct (Z.eqb_spec (len acc) order) as [E|N].
  - now intros [= <-].
  - apply IH.
Qed.

Lemma loop_if_Return (condition : hkl -> bool) (order : Z)
  (candidates : list hkl) :
  forall hkl_list ps,
    loop_if condition order candidates hkl_list = Return ps ->
    len ps = order.
Proof.
  induction candidates as [|c rest IH]; intros acc ps; cbn [loop_if];
    [discriminate|].
  destruct (Z.eqb_spec
              (len (if condition c then acc ++ [CrystalPlane_of c] else acc))
              order) as [E|N].
  - now intros [= <-].
  - apply IH.
Qed.

Lemma get_planes_Some_inv (sys : CrystalSystem) (order : Z)
  (ps : list CrystalPlane) :
  get_planes sys order = Some ps ->
  len ps = order
  /\ ps = map CrystalPlane_of
            (firstn (Z.to_nat order) (filter (selection_rule sys) HKL_LIST)).
Proof.
  intros H.
  assert (Hlen : len ps = order).
  { unfold get_planes in H.
    destruct (get_planes_loop sys order) as [l'|l'] eqn:E; [|discriminate].
    inversion H; subst l'. unfold get_planes_loop in E.
    destruct sys; [apply loop_if_Return in E|apply loop_if_Return in E|
                   apply loop_SC_Return in E]; exact E. }
  split; [exact Hlen|].
  assert (Hle : 0 <= order) by (unfold len in Hlen; lia).
  unfold get_planes in H.
  rewrite (get_planes_loop_spec sys order Hle) in H. cbv zeta in H.
  remember (map CrystalPlane_of
              (firstn (Z.to_nat order) (filter (selection_rule sys) HKL_LIST)))
    as selected eqn:Es.
  clear Es.
  destruct (match sys with
            | SC => order <? len (filter (selection_rule sys) HKL_LIST)
            | _ => order <=? len (filter (selection_rule sys) HKL_LIST)
            end); [|discriminate].
  injection H as E. symmetry. exact E.
Qed.

(** Whatever the system, a negative plane count is never reached: the
    method returns [None]. *)
Theorem get_planes_negative_order (sys : CrystalSystem) (order : Z) :
  order < 0 -> get_planes sys order = None.
Proof.
  intros Hneg. destruct (get_planes sys order) as [ps|] eqn:E; [|reflexivity].
  apply get_planes_Some_inv in E. destruct E as [E _].
  unfold len in E. lia.
Qed.

Lemma get_planes_negative_order_witness : get_planes BCC (-1) = None.
Proof. apply (get_planes_negative_order BCC (-1)). reflexivity. Defined.

Section StronglySortedSublists.
Context {A : Type} (R : A -> A -> Prop).

Lemma StronglySorted_filter (keep : A -> bool) (xs : list A) :
  StronglySorted R xs -> StronglySorted R (filter keep xs).
Proof.
  induction 1 as [|x xs Hs IH Hx]; simpl; [constructor|].
  destruct (keep x); [|assumption].
  constructor; [assumption|].
  rewrite Forall_forall in *. intros y Hy. apply filter_In in Hy. now apply Hx.
Qed.

Lemma StronglySorted_firstn (n : nat) (xs : list A) :
  StronglySorted R xs -> StronglySorted R (firstn n xs).
Proof.
  intros Hs. revert n. induction Hs as [|x xs Hs IH Hx]; intros [|n]; simpl;
    try constructor; auto.
  rewrite Forall_forall in *. intros y Hy. apply Hx.
  rewrite <- (firstn_skipn n xs). apply in_or_app. now left.
Qed.

Lemma StronglySorted_NoDup (xs : list A) :
  (forall x, ~ R x x) -> StronglySorted R xs -> NoDup xs.
Proof.
  intros Hirr. induction 1 as [|x xs Hs IH Hx]; constructor; [|assumption].
  rewrite Forall_forall in Hx. intros Hin. exact (Hirr x (Hx x Hin)).
Qed.

Lemma StronglySorted_combinations2 (xs : list A) (a b : A) :
  StronglySorted R xs -> In (a, b) (Itertools.combinations2 xs) -> R a b.
Proof.
  induction 1 as [|x xs Hs IH Hx]; simpl; [tauto|].
  rewrite in_app_iff, in_map_iff. intros [[y [[= <- <-] Hy]]|H]; [|auto].
  rewrite Forall_forall in Hx. auto.
Qed.
End StronglySortedSublists.

Lemma index_combinations_sorted (n : Z) :
  StronglySorted index_order (get_possible_index_combinations n).
Proof.
  unfold get_possible_index_combinations, drop_first.
  pose proof (sorted_combinations_order (n + 1)) as Hs.
  destruct (sorted _ _); simpl; [constructor|]. now inversion Hs.
Qed.

(** The planes of a crystal come in ascending order of
    [h*h + k*k + l*l], ties in the order of generation, so no plane occurs
    twice; each has [0 <= h <= k <= l <= 5] and is not the zero triple; and
    there are exactly [order] of them. *)
Theorem get_planes_sorted (sys : CrystalSystem) (order : Z)
  (ps : list CrystalPlane) :
  get_planes sys order = Some ps ->
  StronglySorted
    (fun p q => index_order (planenormal p) (planenormal q)) ps
  /\ NoDup ps
  /\ Forall (fun p => 0 <= h p /\ h p <= k p /\ k p <= l p /\ l p <= 5
                      /\ 0 < square_sum p) ps
  /\ len ps = order.
Proof.
  intros H. pose proof (get_planes_nonzero _ _ _ H) as Hnz.
  destruct (get_planes_Some_inv _ _ _ H) as [Hlen Hps].
  assert (Hs : StronglySorted
                 (fun p q => index_order (planenormal p) (planenormal q)) ps).
  { rewrite Hps. apply (StronglySorted_map_intro index_order).
    - now intros [[a b] c] [[a' b'] c'].
    - apply StronglySorted_firstn, StronglySorted_filter.
      apply index_combinations_sorted. }
  split; [exact Hs|]. split; [|split; [|exact Hlen]].
  - eapply StronglySorted_NoDup; [|exact Hs].
    intros p. apply index_order_irrefl.
  - apply Forall_forall. intros p Hp.
    assert (Hin : In p (map CrystalPlane_of HKL_LIST)).
    { rewrite Hps in Hp. apply in_map_iff in Hp.
      destruct Hp as [t [<- Ht]]. apply in_map.
      assert (Ht' : In t (filter (selection_rule sys) HKL_LIST)).
      { rewrite <- (firstn_skipn (Z.to_nat order)). apply in_or_app. now left. }
      apply filter_In in Ht'. tauto. }
    assert (Hall : forallb
              (fun p => (0 <=? h p) && (h p <=? k p) && (k p <=? l p)
                        && (l p <=? 5) && (0 <? square_sum p))
              (map CrystalPlane_of HKL_LIST) = true)
      by (vm_compute; reflexivity).
    rewrite forallb_forall in Hall. specialize (Hall p Hin).
    rewrite !andb_true_iff in Hall.
    destruct Hall as [[[[H1 H2] H3] H4] H5].
    apply Z.leb_le in H1, H2, H3, H4. apply Z.ltb_lt in H5. tauto.
Qed.

Lemma get_planes_sorted_witness :
  NoDup (map CrystalPlane_of
           [(1,1,1); (0,0,2); (0,2,2); (1,1,3); (2,2,2); (0,0,4); (1,3,3);
            (0,2,4)]).
Proof.
  apply (get_planes_sorted FCC 8). vm_compute. reflexivity.
Defined.

(** ** More on Crystal.get_d_ratio and Crystal.find_pairs *)

Lemma d_spacing_le (p q : CrystalPlane) :
  0 < square_sum p -> square_sum p <= square_sum q ->
  (0 < d_spacing q <= d_spacing p)%R.
Proof.
  intros Hp Hle. assert (Hq : 0 < square_sum q) by lia.
  pose proof (norm_pos p Hp). pose proof (norm_pos q Hq).
  assert (Hs : (R_sqrt.sqrt (IZR (square_sum p))
                <= R_sqrt.sqrt (IZR (square_sum q)))%R)
    by (apply sqrt_le_1; apply IZR_le; lia).
  unfold d_spacing. rewrite !Rdiv_1_l. split.
  - now apply Rinv_0_lt_compat.
  - apply Rinv_le_contravar; lra.
Qed.

Lemma combinations2_members {A} (xs : list A) (a b : A) :
  In (a, b) (Itertools.combinations2 xs) -> In a xs /\ In b xs.
Proof.
  intros H. apply combinations2_In in H. destruct H as [i [j [_ [Hi Hj]]]].
  split; eapply nth_error_In; eauto.
Qed.

Lemma ratio_of_nonzero (ratio : CrystalPlane * CrystalPlane -> np_float)
  (first second : CrystalPlane) :
  (forall a b d0 d1,
      get_d_spacing a = Ok d0 -> get_d_spacing b = Ok d1 ->
      ratio (a, b) = truediv d0 d1) ->
  0 < square_sum first -> 0 < square_sum second ->
  ratio (first, second) = Finite (d_spacing first / d_spacing second).
Proof.
  intros Hr H1 H2.
  rewrite (Hr _ _ _ _ (get_d_spacing_nonzero _ H1) (get_d_spacing_nonzero _ H2)).
  apply truediv_Finite. pose proof (d_spacing_pos _ H2). lra.
Qed.

Lemma filter_none {A} (f : A -> bool) (xs : list A) :
  (forall x, In x xs -> f x = false) -> filter f xs = [].
Proof.
  induction xs as [|x xs IH]; intros H; simpl; [reflexivity|].
  rewrite (H x) by now left. apply IH. intros y Hy. apply H. now right.
Qed.

Lemma flat_map_ext_In {A B} (f g : A -> list B) (xs : list A) :
  (forall x, In x xs -> f x = g x) -> flat_map f xs = flat_map g xs.
Proof.
  induction xs as [|x xs IH]; intros H; simpl; [reflexivity|].
  rewrite (H x) by now left. f_equal. apply IH. intros y Hy. apply H. now right.
Qed.

Lemma flat_map_empty {A B} (xs : list A) :
  flat_map (fun _ : A => @nil B) xs = [].
Proof. induction xs; simpl; auto. Qed.

Lemma flat_map_single {A B} (f : A -> B) (xs : list A) :
  flat_map (fun x => [f x]) xs = map f xs.
Proof. induction xs as [|x xs IH]; simpl; [reflexivity|]. now rewrite IH. Qed.

Lemma length_flat_map_le {A B} (f g : A -> list B) (xs : list A) :
  (forall x, (length (f x) <= length (g x))%nat) ->
  (length (flat_map f xs) <= length (flat_map g xs))%nat.
Proof.
  intros H. induction xs as [|x xs IH]; simpl; [lia|].
  rewrite !length_app. specialize (H x). lia.
Qed.

Lemma length_flat_map_le1 {A B} (f : A -> list B) (xs : list A) :
  (forall x, (length (f x) <= 1)%nat) ->
  (length (flat_map f xs) <= length xs)%nat.
Proof.
  intros H. induction xs as [|x xs IH]; simpl; [lia|].
  rewrite length_app. specialize (H x). lia.
Qed.

Lemma find_all_false {A} (f : A -> bool) (xs : list A) :
  (forall x, In x xs -> f x = false) -> find f xs = None.
Proof.
  induction xs as [|x xs IH]; intros H; simpl; [reflexivity|].
  rewrite (H x) by now left. apply IH. intros y Hy. apply H. now right.
Qed.

Lemma find_exists {A} (f : A -> bool) (xs : list A) (x : A) :
  In x xs -> f x = true -> exists y, find f xs = Some y.
Proof.
  induction xs as [|z xs IH]; intros Hin Hf; [destruct Hin|]. simpl.
  destruct (f z) eqn:E; [eauto|].
  destruct Hin as [->|Hin]; [congruence|auto].
Qed.

Lemma scan_equivalents_length (vector_1 : CrystalPlane) (angle : R)
  (vector_2_lst : list CrystalPlane) :
  (length (scan_equivalents vector_1 angle vector_2_lst []) <= 1)%nat.
Proof.
  rewrite scan_equivalents_find. simpl. destruct (find _ _); simpl; lia.
Qed.

Lemma combinations2_length {A} (xs : list A) :
  (2 * length (Itertools.combinations2 xs)
   = length xs * (length xs - 1))%nat.
Proof.
  induction xs as [|x xs IH]; simpl; [reflexivity|].
  rewrite length_app, length_map. nia.
Qed.

(** A crystal of [n] planes has [n * (n - 1) / 2] ratios, one for each
    pair of positions [i < j], and [find_pairs] prints at most one match for
    each of them. *)
Theorem find_pairs_count (self : Crystal) (ps : list CrystalPlane)
  (space_ratio angle : R) :
  planes self = Some ps ->
  exists d_ratio out,
    get_d_ratio self = Ok d_ratio
    /\ (2 * length d_ratio = length ps * (length ps - 1))%nat
    /\ find_pairs self space_ratio angle = Ok out
    /\ (length out <= length (possible_pairs_of space_ratio d_ratio)
        <= length d_ratio)%nat.
Proof.
  intros Hps. destruct (get_d_ratio_Some self ps Hps) as [ratio [Hd _]].
  eexists. eexists. split; [exact Hd|].
  split; [now rewrite length_map, combinations2_length|].
  split.
  - unfold find_pairs. rewrite Hd. cbn [bind]. now rewrite scan_pairs_flat_map.
  - split.
    + cbn [app]. apply length_flat_map_le1. intros x.
      apply scan_equivalents_length.
    + unfold possible_pairs_of. rewrite length_map. apply filter_length_le.
Qed.

Lemma find_pairs_count_witness :
  exists d_ratio,
    get_d_ratio (mkCrystal SC 5 (get_planes SC 5)) = Ok d_ratio
    /\ length d_ratio = 10%nat.
Proof.
  destruct (find_pairs_count (mkCrystal SC 5 (get_planes SC 5))
              (map CrystalPlane_of
                 [(0,0,1); (0,1,1); (1,1,1); (0,0,2); (0,1,2)]) 1 66)
    as [d_ratio [out [Hd [Hn _]]]].
  - vm_compute. reflexivity.
  - exists d_ratio. split; [exact Hd|]. simpl in Hn. lia.
Defined.

(** Along the plane list of a crystal the d-spacing does not increase, so
    every ratio of [get_d_ratio] is at least 1; [find_pairs] therefore prints
    nothing when [space_ratio * 1.2 <= 1], as when the inverse of the
    measured ratio is passed. *)
Theorem find_pairs_ratio_at_least_1 (sys : CrystalSystem) (order : Z)
  (ps : list CrystalPlane) (space_ratio angle : R) :
  get_planes sys order = Some ps ->
  exists d_ratio,
    get_d_ratio (mkCrystal sys order (Some ps)) = Ok d_ratio
    /\ (forall r pair_,
          In (r, pair_) d_ratio -> exists x : R, r = Finite x /\ (1 <= x)%R)
    /\ ((space_ratio * 1.2 <= 1)%R ->
        find_pairs (mkCrystal sys order (Some ps)) space_ratio angle = Ok []).
Proof.
  intros Hget.
  pose proof (get_planes_nonzero _ _ _ Hget) as Hnz.
  rewrite Forall_forall in Hnz.
  assert (Hsorted : StronglySorted
            (fun p q => index_order (planenormal p) (planenormal q)) ps).
  { destruct (get_planes_Some_inv _ _ _ Hget) as [_ ->].
    apply (StronglySorted_map_intro index_order).
    - now intros [[a b] c] [[a' b'] c'].
    - apply StronglySorted_firstn, StronglySorted_filter.
      apply index_combinations_sorted. }
  assert (Hge : forall ratio first second,
    (forall a b d0 d1,
        get_d_spacing a = Ok d0 -> get_d_spacing b = Ok d1 ->
        ratio (a, b) = truediv d0 d1) ->
    In (first, second) (Itertools.combinations2 ps) ->
    exists x : R, ratio (first, second) = Finite x /\ (1 <= x)%R).
  { intros ratio first second Hr Hin.
    destruct (combinations2_members _ _ _ Hin) as [H1 H2].
    apply Hnz in H1, H2.
    pose proof (StronglySorted_combinations2 _ _ _ _ Hsorted Hin) as Ho.
    assert (Hle : square_sum first <= square_sum second).
    { destruct first as [a b c], second as [a' b' c'].
      unfold index_order, key_then_gen, planenormal, square_sum in *.
      simpl in *. lia. }
    exists (d_spacing first / d_spacing second)%R.
    split; [now apply ratio_of_nonzero|].
    destruct (d_spacing_le first second H1 Hle) as [Hpos Hd].
    apply (Rmult_le_reg_r (d_spacing second)); [exact Hpos|].
    replace (d_spacing first / d_spacing second * d_spacing second)%R
      with (d_spacing first) by (field; lra).
    lra. }
  destruct (get_d_ratio_Some (mkCrystal sys order (Some ps)) ps eq_refl)
    as [ratio [Hd Hr]].
  eexists. split; [exact Hd|]. split.
  - intros r [first second] Hin. apply in_map_iff in Hin.
    destruct Hin as [[a b] [[= <- <- <-] Hin]]. now apply (Hge ratio).
  - intros Hsmall.
    destruct (find_pairs_Some (mkCrystal sys order (Some ps)) ps
                space_ratio angle eq_refl) as [ratio' [Hr' ->]].
    rewrite filter_none; [reflexivity|].
    intros [first second] Hin.
    destruct (Hge ratio' first second Hr' Hin) as [x [-> Hx]].
    unfold in_limits. apply andb_false_iff. right.
    apply Rltb_false. lra.
Qed.

Lemma find_pairs_ratio_at_least_1_witness :
  find_pairs (mkCrystal FCC 8 (get_planes FCC 8)) (11.11 / 28.93) 66 = Ok [].
Proof.
  destruct (find_pairs_ratio_at_least_1 FCC 8
              (map CrystalPlane_of
                 [(1,1,1); (0,0,2); (0,2,2); (1,1,3); (2,2,2); (0,0,4);
                  (1,3,3); (0,2,4)])
              (11.11 / 28.93) 66) as [d_ratio [_ [_ H]]].
  - vm_compute. reflexivity.
  - apply H. lra.
Defined.

Lemma lt_Finite_mono (x : np_float) (a a' : R) :
  (a <= a')%R -> lt x (Finite a) = true -> lt x (Finite a') = true.
Proof.
  intros Ha. destruct x; simpl; auto.
  rewrite !Rltb_true. lra.
Qed.

(** Raising the angle threshold never loses a match: the retained pairs do
    not depend on the angle, and a pair that has a match keeps one. *)
Theorem find_pairs_angle_monotone (self : Crystal)
  (space_ratio angle angle' : R) (out out' : list MatchResult) :
  (angle <= angle')%R ->
  find_pairs self space_ratio angle = Ok out ->
  find_pairs self space_ratio angle' = Ok out' ->
  (length out <= length out')%nat.
Proof.
  intros Ha. unfold find_pairs.
  destruct (get_d_ratio self) as [d_ratio|e]; [|discriminate].
  cbn [bind]. rewrite !scan_pairs_flat_map. cbn [app].
  intros H H'.
  apply (f_equal (fun r => match r with Ok v => v | Raise _ => [] end)) in H, H'.
  cbv beta iota in H, H'. subst out out'.
  apply length_flat_map_le. intros pair_. cbv beta.
  rewrite !scan_equivalents_find. cbn [app].
  destruct (find (fun v => lt (angle_between (fst pair_) v) (Finite angle))
              (get_equivalent_planes (snd pair_))) as [q|] eqn:E;
    [|simpl; lia].
  apply find_some in E. destruct E as [Hin Hq].
  destruct (find_exists
              (fun v => lt (angle_between (fst pair_) v) (Finite angle'))
              _ q Hin (lt_Finite_mono _ _ _ Ha Hq)) as [q' ->].
  simpl. lia.
Qed.

Lemma find_pairs_angle_monotone_witness :
  exists out out',
    find_pairs (mkCrystal FCC 8 (get_planes FCC 8)) 2 30 = Ok out
    /\ find_pairs (mkCrystal FCC 8 (get_planes FCC 8)) 2 60 = Ok out'
    /\ (length out <= length out')%nat.
Proof.
  destruct (find_pairs_Some (mkCrystal FCC 8 (get_planes FCC 8)) _ 2 30
              get_planes_FCC_8) as [r [_ H]].
  destruct (find_pairs_Some (mkCrystal FCC 8 (get_planes FCC 8)) _ 2 60
              get_planes_FCC_8) as [r' [_ H']].
  eexists. eexists. split; [exact H|]. split; [exact H'|].
  apply (find_pairs_angle_monotone _ 2 30 60 _ _ ltac:(lra) H H').
Defined.

Lemma get_equivalent_planes_head (p : CrystalPlane) :
  exists rest, get_equivalent_planes p = p :: rest.
Proof.
  destruct p as [a b c]. rewrite get_equivalent_planes_listed.
  eexists. cbn [flat_map map app CrystalPlane_of]. reflexivity.
Qed.

Lemma equivalent_nonzero (p q : CrystalPlane) :
  0 < square_sum p -> In q (get_equivalent_planes p) -> 0 < square_sum q.
Proof. intros Hp Hq. now rewrite (equivalent_square_sum p q Hq). Qed.

(** The two ends of the angle threshold, for planes other than the zero
    triple. With [angle <= 0] nothing is printed. With [angle > 180] every
    retained pair is printed as it stands: the orbit of its second plane
    starts with that plane, which passes the test. *)
Theorem find_pairs_angle_extremes (self : Crystal) (ps : list CrystalPlane)
  (space_ratio angle : R) :
  planes self = Some ps ->
  Forall (fun p => 0 < square_sum p) ps ->
  exists d_ratio,
    get_d_ratio self = Ok d_ratio
    /\ ((angle <= 0)%R -> find_pairs self space_ratio angle = Ok [])
    /\ ((180 < angle)%R ->
        find_pairs self space_ratio angle
        = Ok (map (fun pair_ =>
                     mkMatchResult (fst pair_) (snd pair_)
                       (get_zone_axis (fst pair_) (snd pair_)))
                (possible_pairs_of space_ratio d_ratio))).
Proof.
  intros Hps Hnz. rewrite Forall_forall in Hnz.
  destruct (get_d_ratio_Some self ps Hps) as [ratio [Hd _]].
  eexists. split; [exact Hd|].
  assert (Hmem : forall first second,
    In (first, second)
       (possible_pairs_of space_ratio
          (map (fun pair_ => (ratio pair_, pair_)) (Itertools.combinations2 ps))) ->
    0 < square_sum first /\ 0 < square_sum second).
  { intros first second H. rewrite possible_pairs_of_map in H.
    apply filter_In in H. destruct H as [H _].
    apply combinations2_members in H. destruct H. auto. }
  unfold find_pairs. rewrite Hd. cbn [bind].
  rewrite scan_pairs_flat_map. cbn [app]. split; intros Ha; f_equal.
  - etransitivity;
      [|apply (@flat_map_empty (CrystalPlane * CrystalPlane) MatchResult)].
    apply flat_map_ext_In. intros [first second] Hin.
    destruct (Hmem _ _ Hin) as [H1 H2]. cbn [fst snd].
    rewrite scan_equivalents_find, find_all_false; [reflexivity|].
    intros q Hq. pose proof (equivalent_nonzero _ _ H2 Hq) as H3.
    rewrite (angle_between_nonzero _ _ H1 H3).
    apply Rltb_false. pose proof (angle_degrees_range first q). lra.
  - etransitivity; [|apply flat_map_single].
    apply flat_map_ext_In. intros [first second] Hin.
    destruct (Hmem _ _ Hin) as [H1 H2]. cbn [fst snd].
    rewrite scan_equivalents_find.
    destruct (get_equivalent_planes_head second) as [rest ->].
    cbn [find]. rewrite (angle_between_nonzero _ _ H1 H2).
    replace (lt (Finite (angle_degrees first second)) (Finite angle))
      with true; [reflexivity|].
    symmetry. apply lt_Finite.
    pose proof (angle_degrees_range first second). lra.
Qed.

Lemma find_pairs_angle_extremes_witness :
  find_pairs (mkCrystal FCC 8 (get_planes FCC 8)) (28.93 / 11.11) 0 = Ok [].
Proof.
  destruct (find_pairs_angle_extremes (mkCrystal FCC 8 (get_planes FCC 8))
              (map CrystalPlane_of
                 [(1,1,1); (0,0,2); (0,2,2); (1,1,3); (2,2,2); (0,0,4);
                  (1,3,3); (0,2,4)])
              (28.93 / 11.11) 0) as [d_ratio [_ [H _]]].
  - vm_compute. reflexivity.
  - repeat (constructor; [reflexivity|]). constructor.
  - apply H. lra.
Defined.

(** ** The number of index combinations *)

Lemma cwr2_length {A} (pool : list A) :
  (2 * length (Itertools.cwr2 pool) = length pool * (length pool + 1))%nat.
Proof.
  induction pool as [|x rest IH]; [reflexivity|].
  cbn [Itertools.cwr2]. rewrite length_app, length_map. simpl length. nia.
Qed.

Lemma cwr3_length {A} (pool : list A) :
  (6 * length (Itertools.combinations_with_replacement3 pool)
   = length pool * (length pool + 1) * (length pool + 2))%nat.
Proof.
  induction pool as [|x rest IH]; [reflexivity|].
  cbn [Itertools.combinations_with_replacement3].
  rewrite length_app, length_map.
  pose proof (cwr2_length (x :: rest)) as H2. simpl length in *. nia.
Qed.

(** For a bound [n >= 0] there are [(n+1)(n+2)(n+3)/6 - 1] index
    combinations; a negative bound gives none. *)
Theorem get_possible_index_combinations_count (n : Z) :
  (n < 0 -> get_possible_index_combinations n = [])
  /\ (0 <= n ->
      6 * (len (get_possible_index_combinations n) + 1)
      = (n + 1) * (n + 2) * (n + 3)).
Proof.
  unfold get_possible_index_combinations, drop_first, Itertools.range. split.
  - intros Hn. replace (Z.to_nat (n + 1)) with 0%nat by lia. reflexivity.
  - intros Hn.
    pose proof (cwr3_length (map Z.of_nat (seq 0 (Z.to_nat (n + 1))))) as H3.
    rewrite length_map, length_seq in H3.
    pose proof (Permutation_length
                  (sorted_perm sort_by_square_sum
                     (Itertools.combinations_with_replacement3
                        (map Z.of_nat (seq 0 (Z.to_nat (n + 1))))))) as Hp.
    unfold hkl in *. rewrite <- Hp in H3.
    destruct (sorted _ _) as [|t0 rest]; unfold len; simpl length in *; nia.
Qed.

Lemma get_possible_index_combinations_count_witness :
  6 * (len (get_possible_index_combinations 5) + 1) = 336.
Proof.
  apply (proj2 (get_possible_index_combinations_count 5)). lia.
Defined.

(** ** CrystalSystem *)

(** Looking a member up by its value gives the member back, and a string is
    accepted only if it is, letter for letter, the value of the member
    returned. *)
Theorem CrystalSystem_call_value :
  (forall member, CrystalSystem_call (CrystalSystem_value member) = Ok member)
  /\ (forall value member,
        CrystalSystem_call value = Ok member ->
        value = CrystalSystem_value member).
Proof.
  split; [now intros []|].
  intros value member. unfold CrystalSystem_call.
  destruct (String.eqb_spec value "FCC"); [now intros [= <-]|].
  destruct (String.eqb_spec value "BCC"); [now intros [= <-]|].
  destruct (String.eqb_spec value "SC"); [now intros [= <-]|].
  discriminate.
Qed.

Lemma CrystalSystem_call_value_witness :
  "BCC"%string = CrystalSystem_value BCC.
Proof.
  apply (proj2 CrystalSystem_call_value "BCC"%string BCC). reflexivity.
Defined.

(** ** The earlier script *)

Ltac perm_solve :=
  repeat lazymatch goal with
  | |- Permutation [] [] => apply perm_nil
  | |- Permutation (?a :: ?l) ?L =>
      let rec go pre post :=
        lazymatch post with
        | ?b :: ?tl =>
            tryif constr_eq b a
            then (apply (Permutation_cons_app pre tl a); cbn [app])
            else (let pre' := eval cbn [app] in (pre ++ [b]) in go pre' tl)
        end in
      go (@nil CrystalPlane) L
  end.

(** The orbit of the earlier script has the same 48 planes as
    [get_equivalent_planes], each as often, in another order: it runs
    through the sign patterns first and the permutations second, so the two
    are not interchangeable where the first match of a scan is taken. *)
Theorem TemIndex_space_group_permutation (a b c : Z) :
  Permutation
    (map CrystalPlane_of (TemIndex.get_space_group_with_hkl a b c))
    (get_equivalent_planes (mkCrystalPlane a b c))
  /\ length (TemIndex.get_space_group_with_hkl a b c) = 48%nat
  /\ nth 1 (TemIndex.get_space_group_with_hkl a b c) (0, 0, 0) = (a, c, b)
  /\ nth 1 (get_equivalent_planes (mkCrystalPlane a b c))
       (mkCrystalPlane 0 0 0)
     = mkCrystalPlane a b (- c).
Proof.
  split; [|split; [reflexivity|split]].
  - rewrite get_equivalent_planes_listed.
    unfold TemIndex.get_space_group_with_hkl, TemIndex.generate_hkl_variants.
    cbn [Itertools.product3 Itertools.permutations3 flat_map map app
         CrystalPlane_of].
    rewrite ?Z.mul_1_r.
    replace (a * -1) with (- a) by ring.
    replace (b * -1) with (- b) by ring.
    replace (c * -1) with (- c) by ring.
    perm_solve.
  - cbn. now rewrite !Z.mul_1_r.
  - rewrite get_equivalent_planes_listed. reflexivity.
Qed.

(** The earlier constructor checks nothing: with a string that is none of
    "SC", "BCC", "FCC" the crystal is built, its face list is [None], and
    what fails is the later call of [get_d_ratio]. *)
Theorem TemIndex_unrecognized_selector (value : string) (order : Z) :
  value <> "FCC"%string -> value <> "BCC"%string -> value <> "SC"%string ->
  TemIndex.Crystal_init value order = TemIndex.mkCrystal value order None
  /\ TemIndex.get_d_ratio (TemIndex.Crystal_init value order)
     = Raise TypeError.
Proof.
  intros HF HB HS.
  assert (E : TemIndex.get_faces value order = None).
  { unfold TemIndex.get_faces.
    apply String.eqb_neq in HF, HB, HS. now rewrite HF, HB, HS. }
  unfold TemIndex.Crystal_init, TemIndex.get_d_ratio. rewrite E.
  split; reflexivity.
Qed.

Lemma TemIndex_unrecognized_selector_witness :
  TemIndex.Crystal_init "HCP" 8 = TemIndex.mkCrystal "HCP" 8 None.
Proof.
  apply (TemIndex_unrecognized_selector "HCP" 8); discriminate.
Defined.

Lemma equivalent_equivalence_witness :
  equivalent (mkCrystalPlane (-2) 3 (-1)) (mkCrystalPlane 1 2 3).
Proof.
  apply (proj1 (proj2 equivalent_equivalence)
           (mkCrystalPlane 1 2 3) (mkCrystalPlane (-2) 3 (-1))).
  unfold equivalent. vm_compute. do 29 right. left. reflexivity.
Defined.

Lemma equivalent_iff_abs_indices_witness :
  In (mkCrystalPlane (-2) 3 (-1)) (get_equivalent_planes (mkCrystalPlane 1 2 3)).
Proof.
  apply (proj2 (equivalent_iff_abs_indices
                  (mkCrystalPlane 1 2 3) (mkCrystalPlane (-2) 3 (-1)))).
  vm_compute. do 3 right. left. reflexivity.
Defined.

(** * The methods on numpy's number formats: facts *)

Section Np64Facts.
Import Floats.
#[local] Set Warnings "-inexact-float".

Lemma pyint_dtype_int64 (z : Z) :
  - Np64.two63 <= z < Np64.two63 -> Np64.pyint_dtype z = Np64.int64.
Proof.
  intros H. unfold Np64.pyint_dtype.
  destruct (Z.leb_spec (- Np64.two63) z), (Z.ltb_spec z Np64.two63);
    try reflexivity; lia.
Qed.

Lemma pyint_dtype_object (z : Z) :
  z < - Np64.two63 \/ Np64.two64 <= z -> Np64.pyint_dtype z = Np64.object.
Proof.
  unfold Np64.pyint_dtype. intros H.
  destruct (Z.leb_spec (- Np64.two63) z), (Z.ltb_spec z Np64.two63),
    (Z.leb_spec 0 z), (Z.ltb_spec z Np64.two64);
    try reflexivity; unfold Np64.two63, Np64.two64 in *; lia.
Qed.

Lemma pyint_dtype_object_inv (z : Z) :
  Np64.pyint_dtype z = Np64.object -> z < - Np64.two63 \/ Np64.two64 <= z.
Proof.
  unfold Np64.pyint_dtype.
  destruct (Z.leb_spec (- Np64.two63) z), (Z.ltb_spec z Np64.two63),
    (Z.leb_spec 0 z), (Z.ltb_spec z Np64.two64);
    simpl; try discriminate; unfold Np64.two63, Np64.two64 in *; lia.
Qed.

(** An array of objects is an array with an index outside both integer
    types. *)
Lemma array_dtype_object (v : ivec) :
  Np64.array_dtype v = Np64.object
  <-> let '(a, b, c) := v in
      Np64.pyint_dtype a = Np64.object \/ Np64.pyint_dtype b = Np64.object
      \/ Np64.pyint_dtype c = Np64.object.
Proof.
  destruct v as [[a b] c]. unfold Np64.array_dtype.
  destruct (Np64.pyint_dtype a), (Np64.pyint_dtype b), (Np64.pyint_dtype c);
    simpl; split; intros H; try discriminate; try reflexivity; auto;
    destruct H as [H|[H|H]]; discriminate.
Qed.

Lemma linalg_norm_cases (v : ivec) :
  (Np64.array_dtype v = Np64.object
   /\ Np64.linalg_norm v = Raise TypeError)
  \/ (Np64.array_dtype v <> Np64.object
      /\ Np64.linalg_norm v
         = Ok (PrimFloat.sqrt
                 (Np64.sum_of_squares (Np64.astype_float v)))).
Proof.
  unfold Np64.linalg_norm. destruct (Np64.array_dtype v);
    [right|right|right|left]; split; try reflexivity; discriminate.
Qed.

Lemma ordinary_not_object (p : CrystalPlane) :
  Np64.ordinary p -> Np64.array_dtype (planenormal p) <> Np64.object.
Proof.
  intros [H1 [H2 H3]] E. apply array_dtype_object in E. unfold planenormal in E.
  rewrite !pyint_dtype_int64 in E by lia.
  destruct E as [E|[E|E]]; discriminate.
Qed.

Lemma get_d_spacing_cases (p : CrystalPlane) :
  (Np64.array_dtype (planenormal p) = Np64.object
   /\ Np64.get_d_spacing p = Raise TypeError)
  \/ (Np64.array_dtype (planenormal p) <> Np64.object
      /\ Np64.get_d_spacing p
         = Ok (1 / PrimFloat.sqrt
                     (Np64.sum_of_squares
                        (Np64.astype_float (planenormal p))))%float).
Proof.
  unfold Np64.get_d_spacing.
  destruct (linalg_norm_cases (planenormal p)) as [[E ->]|[E ->]];
    [left|right]; auto.
Qed.

Lemma ltb_irrefl (x : float) : (x <? x)%float = false.
Proof.
  rewrite ltb_spec. unfold SFltb, SFcompare.
  destruct (Prim2SF x) as [s|s| |s m e]; try reflexivity.
  - destruct s; reflexivity.
  - destruct s; rewrite Z.compare_refl, ?Pos.compare_refl; try reflexivity.
    all: try (rewrite Pos.compare_cont_refl; reflexivity).
Qed.

Lemma exact_ordinary (p : CrystalPlane) : Np64.exact p -> Np64.ordinary p.
Proof.
  unfold Np64.exact, Np64.ordinary, Np64.two63.
  assert (2 ^ 25 < 9223372036854775808) by reflexivity. lia.
Qed.

Lemma exact_small (p : CrystalPlane) : Np64.exact p -> Np64.small p.
Proof.
  unfold Np64.exact, Np64.small.
  assert (2 ^ 25 < 2 ^ 31) by reflexivity. lia.
Qed.

(** C3, as the code has it. [get_d_spacing] has no error for a degenerate
    plane. It raises exactly when an index fits neither int64 nor uint64
    (the normal is then an array of objects), and what it raises is a
    [TypeError]; with every index in [-2^63, 2^64) it returns a float. For
    indices below 2^25 in absolute value that float is the binary64
    [1 / sqrt(h*h + k*k + l*l)], and for [(0, 0, 0)] it is positive
    infinity. *)
Theorem get_d_spacing_value_or_TypeError (p : CrystalPlane) :
  (Np64.exact p ->
   Np64.get_d_spacing p
   = Ok (1 / PrimFloat.sqrt
               (Np64.of_int (h p) * Np64.of_int (h p)
                + Np64.of_int (k p) * Np64.of_int (k p)
                + Np64.of_int (l p) * Np64.of_int (l p)))%float)
  /\ (raises (Np64.get_d_spacing p)
      <-> (h p < - Np64.two63 \/ Np64.two64 <= h p)
          \/ (k p < - Np64.two63 \/ Np64.two64 <= k p)
          \/ (l p < - Np64.two63 \/ Np64.two64 <= l p))
  /\ (raises (Np64.get_d_spacing p) ->
      Np64.get_d_spacing p = Raise TypeError)
  /\ (~ raises (Np64.get_d_spacing p) ->
      exists d, Np64.get_d_spacing p = Ok d)
  /\ Np64.get_d_spacing (mkCrystalPlane 0 0 0) = Ok infinity.
Proof.
  assert (Hobj : Np64.array_dtype (planenormal p) = Np64.object
                 <-> (h p < - Np64.two63 \/ Np64.two64 <= h p)
                     \/ (k p < - Np64.two63 \/ Np64.two64 <= k p)
                     \/ (l p < - Np64.two63 \/ Np64.two64 <= l p)).
  { rewrite array_dtype_object. unfold planenormal. split.
    - intros [H|[H|H]]; apply pyint_dtype_object_inv in H; auto.
    - intros [H|[H|H]]; apply pyint_dtype_object in H; auto. }
  destruct (get_d_spacing_cases p) as [[E Hr]|[E Hv]].
  - split; [|split; [|split; [|split; [|vm_compute; reflexivity]]]].
    + intros Hp. now apply exact_ordinary, ordinary_not_object in Hp.
    + rewrite Hr, <- Hobj. split; [auto|]. intros _. now exists TypeError.
    + intros _. exact Hr.
    + intros H. exfalso. apply H. rewrite Hr. now exists TypeError.
  - split; [|split; [|split; [|split; [|vm_compute; reflexivity]]]].
    + intros _. exact Hv.
    + rewrite Hv, <- Hobj. split; [|contradiction].
      intros [e He]. discriminate He.
    + rewrite Hv. intros [e He]. discriminate He.
    + intros _. rewrite Hv. eexists. reflexivity.
Qed.

Lemma get_d_spacing_value_or_TypeError_witness :
  Np64.get_d_spacing (mkCrystalPlane 1 1 1) = Ok 0.57735026918962584%float.
Proof.
  destruct (get_d_spacing_value_or_TypeError (mkCrystalPlane 1 1 1))
    as [H _].
  rewrite H; [vm_compute; reflexivity|].
  vm_compute. repeat split; reflexivity.
Defined.

(** C3 fails at [(0, 0, 0)]: the call returns infinity, it does not
    raise. *)
Lemma get_d_spacing_zero_is_infinity :
  Np64.get_d_spacing (mkCrystalPlane 0 0 0) = Ok infinity
  /\ ~ (raises (Np64.get_d_spacing (mkCrystalPlane 0 0 0))
        <-> (0 = 0 /\ 0 = 0 /\ 0 = 0)).
Proof.
  assert (E : Np64.get_d_spacing (mkCrystalPlane 0 0 0) = Ok infinity)
    by (vm_compute; reflexivity).
  split; [exact E|]. rewrite E. intros [_ H].
  destruct H as [e He]; [auto|]. discriminate He.
Qed.

(** An index of 2^64 makes the normal an array of objects. *)
Lemma get_d_spacing_two64 :
  Np64.get_d_spacing (mkCrystalPlane (2 ^ 64) 0 0) = Raise TypeError.
Proof. vm_compute. reflexivity. Qed.

(** ** get_d_ratio and the band of find_pairs *)

Lemma mapM_Ok_In {A B} (f : A -> pyresult B) (g : A -> B) (xs : list A) :
  (forall x, In x xs -> f x = Ok (g x)) -> mapM f xs = Ok (map g xs).
Proof.
  induction xs as [|x xs IH]; intros H; simpl; [reflexivity|].
  rewrite (H x) by now left. cbn [bind].
  rewrite IH by (intros y Hy; apply H; now right). reflexivity.
Qed.

Lemma mapM_Ok_inv {A B} (f : A -> pyresult B) (xs : list A) (ys : list B) :
  mapM f xs = Ok ys -> forall x, In x xs -> exists y, f x = Ok y.
Proof.
  revert ys. induction xs as [|x xs IH]; intros ys H z Hz; [destruct Hz|].
  simpl in H. destruct (f x) as [b|e] eqn:Ex; [|discriminate].
  cbn [bind] in H. destruct (mapM f xs) as [bs|e] eqn:Em; [|discriminate].
  destruct Hz as [<-|Hz]; eauto.
Qed.

Lemma mapM_Raise_inv {A B} (f : A -> pyresult B) (e : exn) (xs : list A) :
  mapM f xs = Raise e -> exists x, In x xs /\ f x = Raise e.
Proof.
  induction xs as [|x xs IH]; intros H; [discriminate H|].
  simpl in H. destruct (f x) as [b|e'] eqn:Ex.
  - cbn [bind] in H. destruct (mapM f xs) as [bs|e'] eqn:Em; [discriminate|].
    cbn [bind] in H. injection H as ->.
    destruct (IH eq_refl) as [y [Hy Ey]]. exists y. split; [now right|exact Ey].
  - cbn [bind] in H. injection H as ->. exists x. split; [now left|exact Ex].
Qed.

(** The value [get_d_spacing] returns when it returns one. *)
Lemma get_d_spacing_ordinary (p : CrystalPlane) :
  Np64.ordinary p ->
  Np64.get_d_spacing p
  = Ok (1 / PrimFloat.sqrt
              (Np64.sum_of_squares (Np64.astype_float (planenormal p))))%float.
Proof.
  intros H. destruct (get_d_spacing_cases p) as [[E _]|[_ E]]; [|exact E].
  now apply ordinary_not_object in E.
Qed.

Lemma get_d_ratio_ordinary (self : Crystal) (ps : list CrystalPlane) :
  planes self = Some ps ->
  Forall Np64.ordinary ps ->
  exists ratio : CrystalPlane * CrystalPlane -> float,
    Np64.get_d_ratio self
    = Ok (map (fun pair_ => (ratio pair_, pair_)) (Itertools.combinations2 ps))
    /\ forall first second,
         In (first, second) (Itertools.combinations2 ps) ->
         exists d0 d1,
           Np64.get_d_spacing first = Ok d0
           /\ Np64.get_d_spacing second = Ok d1
           /\ ratio (first, second) = (d0 / d1)%float.
Proof.
  intros Hps Hord. rewrite Forall_forall in Hord.
  set (d := fun p : CrystalPlane =>
         (1 / PrimFloat.sqrt
                (Np64.sum_of_squares (Np64.astype_float (planenormal p))))%float).
  exists (fun pair_ => (d (fst pair_) / d (snd pair_))%float). split.
  - unfold Np64.get_d_ratio. rewrite Hps. apply mapM_Ok_In.
    intros [first second] Hin. apply combinations2_members in Hin.
    destruct Hin as [H1 H2]. cbn [fst snd].
    rewrite (get_d_spacing_ordinary _ (Hord _ H1)),
            (get_d_spacing_ordinary _ (Hord _ H2)).
    reflexivity.
  - intros first second Hin. apply combinations2_members in Hin.
    destruct Hin as [H1 H2]. exists (d first), (d second).
    auto using get_d_spacing_ordinary.
Qed.

Lemma np64_possible_pairs_of_map (space_ratio : float)
  (ratio : CrystalPlane * CrystalPlane -> float)
  (pairs : list (CrystalPlane * CrystalPlane)) :
  Np64.possible_pairs_of space_ratio
    (map (fun pair_ => (ratio pair_, pair_)) pairs)
  = filter (fun pair_ =>
              Np64.in_limits (space_ratio * 0.8) (space_ratio * 1.2)
                (ratio pair_))
      pairs.
Proof.
  unfold Np64.possible_pairs_of.
  induction pairs as [|x xs IH]; simpl; [reflexivity|].
  destruct (Np64.in_limits _ _ (ratio x)); simpl; now rewrite IH.
Qed.

(** C5. For a crystal whose planes are [ps] (indices below 2^25 in
    absolute value, as those of [get_planes] are), [get_d_ratio] pairs every
    combination [(ps[i], ps[j])], [i < j], with the binary64 quotient of the
    two d-spacings, and the pairs [find_pairs] keeps are, in the order of
    the combinations, exactly those whose quotient [r] passes the two float
    comparisons [space_ratio * 0.8 < r] and [r < space_ratio * 1.2]. Both are
    strict: a quotient equal to one of the two products is not kept. *)
Theorem find_pairs_retains_band :
  forall (self : Crystal) (ps : list CrystalPlane) (space_ratio : float),
    planes self = Some ps ->
    Forall Np64.exact ps ->
    exists (d_ratio : list (float * (CrystalPlane * CrystalPlane)))
           (ratio : CrystalPlane * CrystalPlane -> float),
      Np64.get_d_ratio self = Ok d_ratio
      /\ d_ratio
         = map (fun pair_ => (ratio pair_, pair_)) (Itertools.combinations2 ps)
      /\ (forall first second,
            In (first, second) (Itertools.combinations2 ps) ->
            exists d0 d1,
              Np64.get_d_spacing first = Ok d0
              /\ Np64.get_d_spacing second = Ok d1
              /\ ratio (first, second) = (d0 / d1)%float)
      /\ (forall a b,
            In (a, b) (Itertools.combinations2 ps)
            <-> exists i j, (i < j)%nat /\ nth_error ps i = Some a
                            /\ nth_error ps j = Some b)
      /\ Np64.possible_pairs_of space_ratio d_ratio
         = filter (fun pair_ =>
                     (space_ratio * 0.8 <? ratio pair_)%float
                     && (ratio pair_ <? space_ratio * 1.2)%float)
             (Itertools.combinations2 ps)
      /\ (forall pair_,
            In pair_ (Np64.possible_pairs_of space_ratio d_ratio)
            <-> In pair_ (Itertools.combinations2 ps)
                /\ (space_ratio * 0.8 <? ratio pair_)%float = true
                /\ (ratio pair_ <? space_ratio * 1.2)%float = true)
      /\ (forall pair_,
            ratio pair_ = (space_ratio * 0.8)%float
            \/ ratio pair_ = (space_ratio * 1.2)%float ->
            ~ In pair_ (Np64.possible_pairs_of space_ratio d_ratio)).
Proof.
  intros self ps space_ratio Hps Hex.
  assert (Hord : Forall Np64.ordinary ps)
    by (revert Hex; apply Forall_impl, exact_ordinary).
  destruct (get_d_ratio_ordinary self ps Hps Hord) as [ratio [Hd Hr]].
  eexists. exists ratio. split; [exact Hd|]. split; [reflexivity|].
  split; [exact Hr|]. split; [intros a b; apply combinations2_In|].
  assert (Hin : forall pair_,
    In pair_ (Np64.possible_pairs_of space_ratio
                (map (fun pair_ => (ratio pair_, pair_))
                   (Itertools.combinations2 ps)))
    <-> In pair_ (Itertools.combinations2 ps)
        /\ (space_ratio * 0.8 <? ratio pair_)%float = true
        /\ (ratio pair_ <? space_ratio * 1.2)%float = true).
  { intros pair_. rewrite np64_possible_pairs_of_map, filter_In.
    unfold Np64.in_limits. now rewrite andb_true_iff. }
  split; [apply np64_possible_pairs_of_map|]. split; [exact Hin|].
  intros pair_ Hedge Hkept. apply Hin in Hkept.
  destruct Hkept as [_ [Hlo Hhi]].
  destruct Hedge as [E|E]; rewrite E in *.
  - rewrite ltb_irrefl in Hlo. discriminate.
  - rewrite ltb_irrefl in Hhi. discriminate.
Qed.

Lemma find_pairs_retains_band_witness :
  exists d_ratio,
    Np64.get_d_ratio (mkCrystal FCC 8 (get_planes FCC 8)) = Ok d_ratio
    /\ length d_ratio = 28%nat
    /\ In (mkCrystalPlane 1 1 1, mkCrystalPlane 0 0 4)
         (Np64.possible_pairs_of (28.93 / 11.11) d_ratio)
    /\ ~ In (mkCrystalPlane 1 1 1, mkCrystalPlane 0 0 2)
           (Np64.possible_pairs_of (28.93 / 11.11) d_ratio).
Proof.
  destruct (find_pairs_retains_band (mkCrystal FCC 8 (get_planes FCC 8))
              (map CrystalPlane_of
                 [(1,1,1); (0,0,2); (0,2,2); (1,1,3); (2,2,2); (0,0,4);
                  (1,3,3); (0,2,4)])
              (28.93 / 11.11)%float)
    as [d_ratio [ratio [Hd [E [Hr [_ [_ [Hin _]]]]]]]].
  - vm_compute. reflexivity.
  - repeat (constructor; [vm_compute; repeat split; reflexivity|]).
    constructor.
  - exists d_ratio. split; [exact Hd|].
    split; [rewrite E, length_map; reflexivity|]. split.
    + apply Hin. split; [simpl; tauto|].
      destruct (Hr (mkCrystalPlane 1 1 1) (mkCrystalPlane 0 0 4))
        as [d0 [d1 [E0 [E1 ->]]]]; [simpl; tauto|].
      vm_compute in E0, E1. injection E0 as <-. injection E1 as <-.
      split; vm_compute; reflexivity.
    + intros H. apply Hin in H. destruct H as [_ [H _]].
      destruct (Hr (mkCrystalPlane 1 1 1) (mkCrystalPlane 0 0 2))
        as [d0 [d1 [E0 [E1 Er]]]]; [simpl; tauto|].
      rewrite Er in H.
      vm_compute in E0, E1. injection E0 as <-. injection E1 as <-.
      vm_compute in H. discriminate H.
Defined.

(** What rounding does at the edge of the band: for the BCC crystal of 9
    planes and the ratio 2.5 the pair (0, 1, 1), (0, 3, 3), whose exact ratio
    [sqrt 18 / sqrt 2 = 3] is the exact upper limit [2.5 * 1.2], is kept: its
    binary64 quotient is 2.9999999999999996 and the binary64 limit is 3. *)
Lemma band_edge_BCC_9 :
  exists d_ratio,
    Np64.get_d_ratio (mkCrystal BCC 9 (get_planes BCC 9)) = Ok d_ratio
    /\ In (2.9999999999999996%float,
           (mkCrystalPlane 0 1 1, mkCrystalPlane 0 3 3)) d_ratio
    /\ (2.5 * 1.2 = 3)%float
    /\ In (mkCrystalPlane 0 1 1, mkCrystalPlane 0 3 3)
         (Np64.possible_pairs_of 2.5 d_ratio).
Proof.
  eexists. split; [vm_compute; reflexivity|].
  split; [|split; [vm_compute; reflexivity|]].
  - vm_compute. repeat first [left; reflexivity | right].
  - vm_compute. repeat first [left; reflexivity | right].
Qed.

(** ** get_zone_axis on int64 arrays *)

Lemma wrap_int64 (z : Z) :
  - Np64.two63 <= z < Np64.two63 -> Np64.wrap z = z.
Proof.
  intros H. unfold Np64.wrap.
  rewrite Z.mod_small; unfold Np64.two63, Np64.two64 in *; lia.
Qed.

Lemma mul_below_2_62 (a b : Z) :
  Z.abs a < 2 ^ 31 -> Z.abs b < 2 ^ 31 -> Z.abs (a * b) < 2 ^ 62.
Proof.
  intros Ha Hb. rewrite Z.abs_mul. change (2 ^ 62) with (2 ^ 31 * 2 ^ 31).
  apply Z.mul_lt_mono_nonneg; auto using Z.abs_nonneg.
Qed.

Lemma wrap_sub_products (a b c d : Z) :
  Z.abs a < 2 ^ 31 -> Z.abs b < 2 ^ 31 ->
  Z.abs c < 2 ^ 31 -> Z.abs d < 2 ^ 31 ->
  Np64.wrap (Np64.wrap (a * b) - Np64.wrap (c * d)) = a * b - c * d.
Proof.
  intros Ha Hb Hc Hd.
  pose proof (mul_below_2_62 a b Ha Hb) as H1.
  pose proof (mul_below_2_62 c d Hc Hd) as H2.
  assert (E : 2 ^ 62 = 4611686018427387904) by reflexivity.
  rewrite E in H1, H2.
  rewrite (wrap_int64 (a * b)) by (unfold Np64.two63; lia).
  rewrite (wrap_int64 (c * d)) by (unfold Np64.two63; lia).
  apply wrap_int64. unfold Np64.two63. lia.
Qed.

(** With indices below 2^31 no product and no difference of [cross] leaves
    int64: the zone axis is the cross product of the integers. *)
Lemma get_zone_axis_small (p1 p2 : CrystalPlane) :
  Np64.small p1 -> Np64.small p2 ->
  Np64.get_zone_axis p1 p2 = get_zone_axis p1 p2.
Proof.
  destruct p1 as [a1 a2 a3], p2 as [b1 b2 b3].
  unfold Np64.small. cbn [h k l]. intros [A1 [A2 A3]] [B1 [B2 B3]].
  unfold Np64.get_zone_axis, get_zone_axis, planenormal, Np64.cross, cross.
  cbn [h k l]. rewrite !wrap_sub_products by assumption. reflexivity.
Qed.

(** The zone axis that numpy computes for two planes with indices below 2^31
    in absolute value is orthogonal to the two normals; from 2^32 on, the
    wrap-around of int64 can break this, as for [(2^32, 0, 1)] and
    [(0, 2^32, 1)], whose axis comes out as [(-2^32, -2^32, 0)]. *)
Theorem zone_axis_orthogonal_int64 (p1 p2 : CrystalPlane) :
  (Np64.small p1 -> Np64.small p2 ->
   Np64.get_zone_axis p1 p2 = get_zone_axis p1 p2
   /\ idot (Np64.get_zone_axis p1 p2) (planenormal p1) = 0
   /\ idot (Np64.get_zone_axis p1 p2) (planenormal p2) = 0)
  /\ Np64.get_zone_axis (mkCrystalPlane (2 ^ 32) 0 1)
       (mkCrystalPlane 0 (2 ^ 32) 1)
     = (- 2 ^ 32, - 2 ^ 32, 0)
  /\ idot (Np64.get_zone_axis (mkCrystalPlane (2 ^ 32) 0 1)
             (mkCrystalPlane 0 (2 ^ 32) 1))
       (planenormal (mkCrystalPlane (2 ^ 32) 0 1))
     = - 2 ^ 64.
Proof.
  split; [|split; vm_compute; reflexivity].
  intros H1 H2. rewrite (get_zone_axis_small p1 p2 H1 H2).
  split; [reflexivity|].
  destruct p1 as [a1 a2 a3], p2 as [b1 b2 b3].
  unfold get_zone_axis, planenormal, cross, idot. simpl. split; ring.
Qed.

Lemma zone_axis_orthogonal_int64_witness :
  Np64.get_zone_axis (mkCrystalPlane 1 1 1) (mkCrystalPlane 0 0 4)
  = (4, -4, 0).
Proof.
  destruct (zone_axis_orthogonal_int64 (mkCrystalPlane 1 1 1)
              (mkCrystalPlane 0 0 4)) as [H _].
  destruct H as [H _].
  - vm_compute. repeat split; reflexivity.
  - vm_compute. repeat split; reflexivity.
  - rewrite H. reflexivity.
Defined.

(** ** The planes of a constructed crystal *)

Lemma get_planes_exact (sys : CrystalSystem) (order : Z)
  (ps : list CrystalPlane) :
  get_planes sys order = Some ps -> Forall Np64.exact ps.
Proof.
  intros H. apply get_planes_Some_inv in H. destruct H as [_ ->].
  apply Forall_forall. intros p Hp. apply in_map_iff in Hp.
  destruct Hp as [t [<- Ht]].
  assert (Hf : In t (filter (selection_rule sys) HKL_LIST)).
  { rewrite <- (firstn_skipn (Z.to_nat order)). apply in_or_app. now left. }
  clear Ht. apply filter_In in Hf. destruct Hf as [Ht _].
  assert (Hall : forallb (fun t : hkl =>
                            let '(a, b, c) := t in
                            (Z.abs a <? 2 ^ 25) && (Z.abs b <? 2 ^ 25)
                            && (Z.abs c <? 2 ^ 25)) HKL_LIST = true)
    by (vm_compute; reflexivity).
  rewrite forallb_forall in Hall. specialize (Hall t Ht).
  destruct t as [[a b] c]. apply andb_prop in Hall. destruct Hall as [Hab Hc].
  apply andb_prop in Hab. destruct Hab as [Ha Hb].
  unfold Np64.exact, CrystalPlane_of. cbn [h k l].
  apply Z.ltb_lt in Ha, Hb, Hc. auto.
Qed.

(** ** The scan of find_pairs *)

Lemma orbit_exact (p q : CrystalPlane) :
  Np64.exact p -> In q (get_equivalent_planes p) -> Np64.exact q.
Proof.
  intros [H1 [H2 H3]] Hq. apply orbit_abs_indices in Hq.
  destruct p as [a b c], q as [x y z]. unfold abs_indices in Hq.
  unfold Np64.exact. cbn [h k l Itertools.permutations3 In] in *.
  repeat (destruct Hq as [Hq|Hq]; [inversion Hq; lia|]). destruct Hq.
Qed.

Section Scan.

Variable np : Np64.angle_functions.

Lemma orbit_ordinary (p q : CrystalPlane) :
  Np64.ordinary p -> In q (get_equivalent_planes p) -> Np64.ordinary q.
Proof.
  intros [H1 [H2 H3]] Hq. apply orbit_abs_indices in Hq.
  destruct p as [a b c], q as [x y z]. unfold abs_indices in Hq.
  unfold Np64.ordinary. cbn [h k l Itertools.permutations3 In] in *.
  repeat (destruct Hq as [Hq|Hq]; [inversion Hq; lia|]). destruct Hq.
Qed.

(** The angle of two planes with int64 indices, as the method composes
    it. *)
Lemma angle_between_ordinary (p q : CrystalPlane) :
  Np64.ordinary p -> Np64.ordinary q ->
  Np64.angle_between np p q
  = Ok (Np64.np_rad2deg np
          (Np64.np_arccos np
             (Np64.np_clip np
                (Np64.np_dot np
                   (Np64.div_scalar (Np64.astype_float (planenormal p))
                      (PrimFloat.sqrt
                         (Np64.sum_of_squares
                            (Np64.astype_float (planenormal p)))))
                   (Np64.div_scalar (Np64.astype_float (planenormal q))
                      (PrimFloat.sqrt
                         (Np64.sum_of_squares
                            (Np64.astype_float (planenormal q))))))
                (-1) 1))).
Proof.
  intros Hp Hq. unfold Np64.angle_between, Np64.unit_vector.
  destruct (linalg_norm_cases (planenormal p)) as [[E _]|[_ ->]];
    [now apply ordinary_not_object in E|].
  destruct (linalg_norm_cases (planenormal q)) as [[E _]|[_ ->]];
    [now apply ordinary_not_object in E|].
  reflexivity.
Qed.

Lemma scan_equivalents_below (vector_1 : CrystalPlane) (angle : float)
  (vector_2_lst : list CrystalPlane) :
  forall out,
    (forall q, In q vector_2_lst ->
               exists a, Np64.angle_between np vector_1 q = Ok a) ->
    Np64.scan_equivalents np vector_1 angle vector_2_lst out
    = (out ++ match find (Np64.below np vector_1 angle) vector_2_lst with
              | Some vector_2 =>
                  [mkMatchResult vector_1 vector_2
                     (Np64.get_zone_axis vector_1 vector_2)]
              | None => []
              end, None).
Proof.
  induction vector_2_lst as [|v rest IH]; intros out Hok;
    cbn [Np64.scan_equivalents find]; [now rewrite app_nil_r|].
  unfold Np64.below at 1.
  destruct (Hok v (or_introl eq_refl)) as [a ->].
  destruct (a <? angle)%float; [reflexivity|].
  apply IH. intros q Hq. apply Hok. now right.
Qed.

Lemma scan_pairs_match_of (angle : float)
  (pairs : list (CrystalPlane * CrystalPlane)) :
  forall out,
    (forall first second q,
        In (first, second) pairs -> In q (get_equivalent_planes second) ->
        exists a, Np64.angle_between np first q = Ok a) ->
    Np64.scan_pairs np angle pairs out
    = (out ++ flat_map (Np64.match_of np angle) pairs, None).
Proof.
  induction pairs as [|[first second] rest IH]; intros out Hok;
    cbn [Np64.scan_pairs flat_map fst snd]; [now rewrite app_nil_r|].
  assert (H1 : forall q, In q (get_equivalent_planes second) ->
                         exists a, Np64.angle_between np first q = Ok a)
    by (intros q Hq; apply (Hok first second q); [now left|exact Hq]).
  rewrite (scan_equivalents_below first angle _ out H1).
  rewrite IH by (intros f s q Hin Hq; apply (Hok f s q); [now right|exact Hq]).
  unfold Np64.match_of at 2. cbn [fst snd].
  rewrite (scan_equivalents_below first angle _ [] H1). cbn [fst app].
  now rewrite app_assoc.
Qed.

Lemma match_of_find (angle : float) (first second : CrystalPlane) :
  (forall q, In q (get_equivalent_planes second) ->
             exists a, Np64.angle_between np first q = Ok a) ->
  Np64.match_of np angle (first, second)
  = match find (Np64.below np first angle) (get_equivalent_planes second) with
    | Some q => [mkMatchResult first q (Np64.get_zone_axis first q)]
    | None => []
    end.
Proof.
  intros H. unfold Np64.match_of. cbn [fst snd].
  now rewrite (scan_equivalents_below first angle _ [] H).
Qed.

(** On a crystal of int64 planes [find_pairs] ends without an exception,
    having printed what the scans of the retained pairs give, in order. *)
Lemma find_pairs_ordinary (self : Crystal) (ps : list CrystalPlane)
  (space_ratio angle : float) :
  planes self = Some ps ->
  Forall Np64.ordinary ps ->
  exists ratio : CrystalPlane * CrystalPlane -> float,
    Np64.get_d_ratio self
    = Ok (map (fun pair_ => (ratio pair_, pair_)) (Itertools.combinations2 ps))
    /\ (forall first second,
          In (first, second) (Itertools.combinations2 ps) ->
          exists d0 d1,
            Np64.get_d_spacing first = Ok d0
            /\ Np64.get_d_spacing second = Ok d1
            /\ ratio (first, second) = (d0 / d1)%float)
    /\ (forall first second q,
          In (first, second) (Itertools.combinations2 ps) ->
          In q (get_equivalent_planes second) ->
          exists a, Np64.angle_between np first q = Ok a)
    /\ Np64.find_pairs np self space_ratio angle
       = (flat_map (Np64.match_of np angle)
            (filter (fun pair_ =>
                       Np64.in_limits (space_ratio * 0.8) (space_ratio * 1.2)
                         (ratio pair_))
               (Itertools.combinations2 ps)), None).
Proof.
  intros Hps Hord.
  destruct (get_d_ratio_ordinary self ps Hps Hord) as [ratio [Hd Hr]].
  rewrite Forall_forall in Hord.
  assert (Hok : forall first second q,
    In (first, second) (Itertools.combinations2 ps) ->
    In q (get_equivalent_planes second) ->
    exists a, Np64.angle_between np first q = Ok a).
  { intros first second q Hin Hq. apply combinations2_members in Hin.
    destruct Hin as [H1 H2]. eexists.
    apply angle_between_ordinary; [auto|].
    eapply orbit_ordinary; [|exact Hq]. auto. }
  exists ratio. split; [exact Hd|]. split; [exact Hr|]. split; [exact Hok|].
  unfold Np64.find_pairs. rewrite Hd, np64_possible_pairs_of_map.
  rewrite scan_pairs_match_of; [reflexivity|].
  intros first second q Hin Hq. apply filter_In in Hin.
  apply (Hok first second q); tauto.
Qed.

(** C4. On a crystal whose planes have indices below 2^25 in absolute
    value (as those of [get_planes] have), [find_pairs] prints, pair after
    pair of the retained pairs, what the scan of the orbit of the second
    plane gives, and no exception ends it. The orbit is walked in the order of
    [get_equivalent_planes]; the first equivalent whose computed angle to
    the first plane passes the float comparison [angle_between < angle]
    gives the one match of the pair (first plane, that equivalent, their
    zone axis), where the scan stops; a pair whose orbit has no such plane
    gives nothing. The angle is [rad2deg] of the [arccos], so in degrees,
    and the comparison is strict: an angle equal to the threshold does not
    pass. *)
Theorem find_pairs_scans_first_equivalent :
  forall (self : Crystal) (ps : list CrystalPlane)
         (space_ratio angle : float),
    planes self = Some ps ->
    Forall Np64.exact ps ->
    exists d_ratio,
      Np64.get_d_ratio self = Ok d_ratio
      /\ Np64.find_pairs np self space_ratio angle
         = (flat_map (Np64.match_of np angle)
              (Np64.possible_pairs_of space_ratio d_ratio), None)
      /\ (forall first second,
            In (first, second) (Np64.possible_pairs_of space_ratio d_ratio) ->
            let orbit := get_equivalent_planes second in
            (forall q, In q orbit ->
               exists a,
                 Np64.angle_between np first q = Ok a
                 /\ Np64.below np first angle q = (a <? angle)%float
                 /\ exists u1 u2,
                      Np64.unit_vector (planenormal first) = Ok u1
                      /\ Np64.unit_vector (planenormal q) = Ok u2
                      /\ a = Np64.np_rad2deg np
                               (Np64.np_arccos np
                                  (Np64.np_clip np (Np64.np_dot np u1 u2)
                                     (-1) 1)))
            /\ (((forall q, In q orbit -> Np64.below np first angle q = false)
                 /\ Np64.match_of np angle (first, second) = [])
                \/ (exists before q after,
                       orbit = before ++ q :: after
                       /\ (forall q', In q' before ->
                                      Np64.below np first angle q' = false)
                       /\ Np64.below np first angle q = true
                       /\ Np64.match_of np angle (first, second)
                          = [mkMatchResult first q
                               (Np64.get_zone_axis first q)])))
      /\ (forall first q,
            Np64.angle_between np first q = Ok angle ->
            Np64.below np first angle q = false).
Proof.
  intros self ps space_ratio angle Hps Hex.
  assert (Hord : Forall Np64.ordinary ps)
    by (revert Hex; apply Forall_impl, exact_ordinary).
  destruct (find_pairs_ordinary self ps space_ratio angle Hps Hord)
    as [ratio [Hd [_ [Hok Hf]]]].
  eexists. split; [exact Hd|].
  rewrite np64_possible_pairs_of_map. split; [exact Hf|]. split.
  - intros first second Hin orbit. apply filter_In in Hin.
    destruct Hin as [Hin _].
    assert (Hok' : forall q, In q orbit ->
                             exists a, Np64.angle_between np first q = Ok a)
      by (intros q Hq; exact (Hok first second q Hin Hq)).
    split.
    + intros q Hq. rewrite Forall_forall in Hord.
      destruct (combinations2_members _ _ _ Hin) as [H1 H2].
      assert (Ho1 : Np64.ordinary first) by auto.
      assert (Hoq : Np64.ordinary q)
        by (eapply orbit_ordinary; [|exact Hq]; auto).
      eexists. split; [apply (angle_between_ordinary _ _ Ho1 Hoq)|].
      split.
      * unfold Np64.below. now rewrite (angle_between_ordinary _ _ Ho1 Hoq).
      * unfold Np64.unit_vector.
        destruct (linalg_norm_cases (planenormal first)) as [[E _]|[_ ->]];
          [now apply ordinary_not_object in E|].
        destruct (linalg_norm_cases (planenormal q)) as [[E _]|[_ ->]];
          [now apply ordinary_not_object in E|].
        cbn [bind]. eexists. eexists. split; [reflexivity|].
        split; reflexivity.
    + rewrite (match_of_find angle first second Hok'). fold orbit.
      pose proof (find_first (Np64.below np first angle) orbit) as H.
      destruct (find (Np64.below np first angle) orbit) as [q|].
      * right. destruct H as [before [after [E [Hb Hq]]]].
        exists before, q, after. auto.
      * left. auto.
  - intros first q E. unfold Np64.below. rewrite E. apply ltb_irrefl.
Qed.

(** Every match printed is justified: its first plane and a plane
    equivalent to its second plane form a combination of the crystal's
    planes whose computed d-spacing quotient passes the two comparisons of
    the band, the computed angle of the two planes of the match passes the
    comparison with the threshold, and the zone axis printed is theirs, the
    cross product of the integers. *)
Theorem find_pairs_matches_justified (self : Crystal)
  (ps : list CrystalPlane) (space_ratio angle : float) (m : MatchResult) :
  planes self = Some ps ->
  Forall Np64.exact ps ->
  In m (fst (Np64.find_pairs np self space_ratio angle)) ->
  exists second d0 d1 a,
    In (vector_1 m, second) (Itertools.combinations2 ps)
    /\ equivalent second (vector_2 m)
    /\ Np64.get_d_spacing (vector_1 m) = Ok d0
    /\ Np64.get_d_spacing second = Ok d1
    /\ (space_ratio * 0.8 <? d0 / d1)%float = true
    /\ (d0 / d1 <? space_ratio * 1.2)%float = true
    /\ Np64.angle_between np (vector_1 m) (vector_2 m) = Ok a
    /\ (a <? angle)%float = true
    /\ zone_axis m = Np64.get_zone_axis (vector_1 m) (vector_2 m)
    /\ zone_axis m = get_zone_axis (vector_1 m) (vector_2 m).
Proof.
  intros Hps Hex Hm.
  assert (Hord : Forall Np64.ordinary ps)
    by (revert Hex; apply Forall_impl, exact_ordinary).
  destruct (find_pairs_ordinary self ps space_ratio angle Hps Hord)
    as [ratio [_ [Hr [Hok Hf]]]].
  rewrite Hf in Hm. cbn [fst] in Hm.
  apply in_flat_map in Hm. destruct Hm as [[first second] [Hin Hm]].
  apply filter_In in Hin. destruct Hin as [Hin Hband].
  destruct (Hr first second Hin) as [d0 [d1 [E0 [E1 Er]]]].
  rewrite Er in Hband. unfold Np64.in_limits in Hband.
  apply andb_prop in Hband. destruct Hband as [Hlo Hhi].
  rewrite match_of_find in Hm
    by (intros q Hq; exact (Hok first second q Hin Hq)).
  destruct (find _ _) as [q|] eqn:E; [|destruct Hm].
  destruct Hm as [<-|[]]. cbn [vector_1 vector_2 zone_axis].
  apply find_some in E. destruct E as [Hq Hlt].
  unfold Np64.below in Hlt.
  destruct (Np64.angle_between np first q) as [a|e] eqn:Ea; [|discriminate].
  exists second, d0, d1, a. repeat (split; [assumption || reflexivity|]).
  rewrite Forall_forall in Hex.
  destruct (combinations2_members _ _ _ Hin) as [H1 H2].
  apply get_zone_axis_small; apply exact_small; [auto|].
  eapply orbit_exact; [|exact Hq]. auto.
Qed.

(** No pair is missed: a combination of the crystal's planes whose computed
    quotient passes the two comparisons of the band and whose second plane
    has an equivalent whose computed angle to the first passes the
    comparison with the threshold gets a match, with that first plane and an
    equivalent of that second plane; and the run ends without an
    exception. *)
Theorem find_pairs_no_pair_missed (self : Crystal) (ps : list CrystalPlane)
  (space_ratio angle : float) (first second q : CrystalPlane)
  (d0 d1 a : float) :
  planes self = Some ps ->
  Forall Np64.exact ps ->
  In (first, second) (Itertools.combinations2 ps) ->
  Np64.get_d_spacing first = Ok d0 ->
  Np64.get_d_spacing second = Ok d1 ->
  (space_ratio * 0.8 <? d0 / d1)%float = true ->
  (d0 / d1 <? space_ratio * 1.2)%float = true ->
  equivalent second q ->
  Np64.angle_between np first q = Ok a ->
  (a <? angle)%float = true ->
  snd (Np64.find_pairs np self space_ratio angle) = None
  /\ exists m,
       In m (fst (Np64.find_pairs np self space_ratio angle))
       /\ vector_1 m = first
       /\ equivalent second (vector_2 m)
       /\ Np64.below np first angle (vector_2 m) = true.
Proof.
  intros Hps Hex Hin E0 E1 Hlo Hhi Hq Ea Hlt.
  assert (Hord : Forall Np64.ordinary ps)
    by (revert Hex; apply Forall_impl, exact_ordinary).
  destruct (find_pairs_ordinary self ps space_ratio angle Hps Hord)
    as [ratio [_ [Hr [Hok Hf]]]].
  rewrite Hf. cbn [fst snd]. split; [reflexivity|].
  destruct (find_exists (Np64.below np first angle)
              (get_equivalent_planes second) q Hq) as [q' Hfind].
  { unfold Np64.below. now rewrite Ea. }
  exists (mkMatchResult first q' (Np64.get_zone_axis first q')).
  split; [|split; [reflexivity|]].
  - apply in_flat_map. exists (first, second). split.
    + apply filter_In. split; [exact Hin|].
      destruct (Hr first second Hin) as [d0' [d1' [E0' [E1' ->]]]].
      rewrite E0 in E0'. rewrite E1 in E1'.
      injection E0' as <-. injection E1' as <-.
      unfold Np64.in_limits. now rewrite Hlo, Hhi.
    + rewrite match_of_find
        by (intros v Hv; exact (Hok first second v Hin Hv)).
      rewrite Hfind. now left.
  - cbn [vector_2]. apply find_some in Hfind. exact Hfind.
Qed.

(** ** Errors of find_pairs *)

(** [get_d_ratio] raises exactly when the plane list is [None] (as
    [get_planes] leaves it when the candidates run out) or a plane of some
    pair has an index that fits neither int64 nor uint64; what it raises is a
    [TypeError], and [find_pairs] then ends with it before it has printed
    anything. On int64 planes, the zero triple included, [find_pairs] raises
    nothing; so for a crystal as [__init__] builds it, [find_pairs] raises
    exactly when [get_planes] returned [None]. *)
Theorem find_pairs_raises_exactly (self : Crystal)
  (space_ratio angle : float) :
  (raises (Np64.get_d_ratio self)
   <-> planes self = None
       \/ exists ps first second,
            planes self = Some ps
            /\ In (first, second) (Itertools.combinations2 ps)
            /\ (Np64.array_dtype (planenormal first) = Np64.object
                \/ Np64.array_dtype (planenormal second) = Np64.object))
  /\ (raises (Np64.get_d_ratio self) ->
      Np64.get_d_ratio self = Raise TypeError
      /\ Np64.find_pairs np self space_ratio angle = ([], Some TypeError))
  /\ (forall ps, planes self = Some ps -> Forall Np64.ordinary ps ->
                 snd (Np64.find_pairs np self space_ratio angle) = None)
  /\ (planes self = get_planes (crystal_system self) (order self) ->
      (snd (Np64.find_pairs np self space_ratio angle) = Some TypeError
       <-> planes self = None)
      /\ (snd (Np64.find_pairs np self space_ratio angle) = None
          <-> planes self <> None)).
Proof.
  assert (Hraise : raises (Np64.get_d_ratio self) ->
                   Np64.get_d_ratio self = Raise TypeError).
  { intros [e He]. unfold Np64.get_d_ratio in *.
    destruct (planes self) as [ps|]; [|reflexivity].
    destruct (mapM_Raise_inv _ e _ He) as [[first second] [_ Hx]].
    rewrite He. f_equal. cbn [fst snd] in Hx.
    destruct (get_d_spacing_cases first) as [[_ E0]|[_ E0]];
      rewrite E0 in Hx; cbn [bind] in Hx; [now injection Hx|].
    destruct (get_d_spacing_cases second) as [[_ E1]|[_ E1]];
      rewrite E1 in Hx; cbn [bind] in Hx; [now injection Hx|discriminate]. }
  assert (Hnone : forall ps, planes self = Some ps -> Forall Np64.ordinary ps ->
                  snd (Np64.find_pairs np self space_ratio angle) = None).
  { intros ps Hps Hord.
    destruct (find_pairs_ordinary self ps space_ratio angle Hps Hord)
      as [ratio [_ [_ [_ Hf]]]].
    now rewrite Hf. }
  split; [|split; [|split; [exact Hnone|]]].
  - split.
    + intros [e He]. unfold Np64.get_d_ratio in He.
      destruct (planes self) as [ps|]; [right|now left].
      destruct (mapM_Raise_inv _ e _ He) as [[first second] [Hin Hx]].
      exists ps, first, second. split; [reflexivity|]. split; [exact Hin|].
      cbn [fst snd] in Hx.
      destruct (get_d_spacing_cases first) as [[E _]|[_ E0]]; [now left|].
      rewrite E0 in Hx. cbn [bind] in Hx.
      destruct (get_d_spacing_cases second) as [[E _]|[_ E1]]; [now right|].
      rewrite E1 in Hx. discriminate Hx.
    + intros [Hn|[ps [first [second [Hps [Hin Hobj]]]]]].
      * unfold Np64.get_d_ratio. rewrite Hn. now exists TypeError.
      * unfold Np64.get_d_ratio. rewrite Hps.
        destruct (mapM _ _) as [ys|e] eqn:E; [|now exists e].
        exfalso.
        destruct (mapM_Ok_inv _ _ _ E (first, second) Hin) as [y Hy].
        cbn [fst snd] in Hy.
        destruct Hobj as [Hobj|Hobj].
        -- destruct (get_d_spacing_cases first) as [[_ E0]|[N _]];
             [|contradiction].
           rewrite E0 in Hy. discriminate Hy.
        -- destruct (get_d_spacing_cases first) as [[_ E0]|[_ E0]];
             rewrite E0 in Hy; cbn [bind] in Hy; [discriminate Hy|].
           destruct (get_d_spacing_cases second) as [[_ E1]|[N _]];
             [|contradiction].
           rewrite E1 in Hy. discriminate Hy.
  - intros H. pose proof (Hraise H) as E. split; [exact E|].
    unfold Np64.find_pairs. now rewrite E.
  - intros Hinit. destruct (planes self) as [ps|] eqn:Hps.
    + symmetry in Hinit. apply get_planes_exact in Hinit.
      assert (Hord : Forall Np64.ordinary ps)
        by (revert Hinit; apply Forall_impl, exact_ordinary).
      rewrite (Hnone ps eq_refl Hord).
      repeat split; intros; congruence.
    + unfold Np64.find_pairs, Np64.get_d_ratio. rewrite Hps. cbn [snd].
      repeat split; intros; congruence.
Qed.

End Scan.

(** ** The statements at the crystals of [main] and of the tests *)

Lemma find_pairs_scans_first_equivalent_witness :
  exists d_ratio,
    Np64.get_d_ratio (mkCrystal FCC 8 (get_planes FCC 8)) = Ok d_ratio
    /\ Np64.find_pairs Np64.placeholder (mkCrystal FCC 8 (get_planes FCC 8))
         (28.93 / 11.11) 66
       = (flat_map (Np64.match_of Np64.placeholder 66)
            (Np64.possible_pairs_of (28.93 / 11.11) d_ratio), None)
    /\ In (mkMatchResult (mkCrystalPlane 1 1 1) (mkCrystalPlane 0 0 4)
             (4, -4, 0))
         (fst (Np64.find_pairs Np64.placeholder
                 (mkCrystal FCC 8 (get_planes FCC 8)) (28.93 / 11.11) 66)).
Proof.
  destruct (find_pairs_scans_first_equivalent Np64.placeholder
              (mkCrystal FCC 8 (get_planes FCC 8))
              (map CrystalPlane_of
                 [(1,1,1); (0,0,2); (0,2,2); (1,1,3); (2,2,2); (0,0,4);
                  (1,3,3); (0,2,4)])
              (28.93 / 11.11)%float 66%float)
    as [d_ratio [Hd [Hf _]]].
  - vm_compute. reflexivity.
  - repeat (constructor; [vm_compute; repeat split; reflexivity|]).
    constructor.
  - exists d_ratio. split; [exact Hd|]. split; [exact Hf|].
    rewrite Hf. cbn [fst]. vm_compute in Hd.
    apply (f_equal (fun r => match r with Ok v => v | Raise _ => [] end))
      in Hd.
    cbv beta iota in Hd. subst d_ratio.
    apply in_flat_map.
    exists (mkCrystalPlane 1 1 1, mkCrystalPlane 0 0 4).
    split; vm_compute; repeat first [left; reflexivity | right].
Defined.

Lemma find_pairs_matches_justified_witness :
  exists second,
    In (mkCrystalPlane 1 1 1, second)
       (Itertools.combinations2
          (map CrystalPlane_of
             [(1,1,1); (0,0,2); (0,2,2); (1,1,3); (2,2,2); (0,0,4); (1,3,3);
              (0,2,4)]))
    /\ equivalent second (mkCrystalPlane 0 0 4).
Proof.
  destruct (find_pairs_matches_justified Np64.placeholder
              (mkCrystal FCC 8 (get_planes FCC 8))
              (map CrystalPlane_of
                 [(1,1,1); (0,0,2); (0,2,2); (1,1,3); (2,2,2); (0,0,4);
                  (1,3,3); (0,2,4)])
              (28.93 / 11.11)%float 66%float
              (mkMatchResult (mkCrystalPlane 1 1 1) (mkCrystalPlane 0 0 4)
                 (4, -4, 0)))
    as [second [d0 [d1 [a [H1 [H2 _]]]]]].
  - vm_compute. reflexivity.
  - repeat (constructor; [vm_compute; repeat split; reflexivity|]).
    constructor.
  - vm_compute. repeat first [left; reflexivity | right].
  - exists second. split; [exact H1|exact H2].
Defined.

Lemma find_pairs_no_pair_missed_witness :
  exists m,
    In m (fst (Np64.find_pairs Np64.placeholder
                 (mkCrystal FCC 8 (get_planes FCC 8)) (28.93 / 11.11) 66))
    /\ vector_1 m = mkCrystalPlane 1 1 1
    /\ equivalent (mkCrystalPlane 0 0 4) (vector_2 m).
Proof.
  destruct (find_pairs_no_pair_missed Np64.placeholder
              (mkCrystal FCC 8 (get_planes FCC 8))
              (map CrystalPlane_of
                 [(1,1,1); (0,0,2); (0,2,2); (1,1,3); (2,2,2); (0,0,4);
                  (1,3,3); (0,2,4)])
              (28.93 / 11.11)%float 66%float
              (mkCrystalPlane 1 1 1) (mkCrystalPlane 0 0 4)
              (mkCrystalPlane 0 0 4)
              0.57735026918962584%float 0.25%float 0%float)
    as [_ [m [H1 [H2 [H3 _]]]]].
  - vm_compute. reflexivity.
  - repeat (constructor; [vm_compute; repeat split; reflexivity|]).
    constructor.
  - simpl. tauto.
  - vm_compute. reflexivity.
  - vm_compute. reflexivity.
  - vm_compute. reflexivity.
  - vm_compute. reflexivity.
  - unfold equivalent. vm_compute. left. reflexivity.
  - vm_compute. reflexivity.
  - vm_compute. reflexivity.
  - exists m. split; [exact H1|]. split; [exact H2|exact H3].
Defined.

Lemma find_pairs_raises_exactly_witness :
  Np64.find_pairs Np64.placeholder (mkCrystal FCC 20 (get_planes FCC 20)) 2 66
  = ([], Some TypeError).
Proof.
  destruct (find_pairs_raises_exactly Np64.placeholder
              (mkCrystal FCC 20 (get_planes FCC 20)) 2%float 66%float)
    as [H1 [H2 _]].
  apply H2, H1. left. vm_compute. reflexivity.
Defined.

End Np64Facts.
